(** * SQLDBAgent: the guardrail of [SafeSQLTool._run]

  A shallow embedding of the admission filter and execution adapter that
  [03_guardrailed_agent.py] and [04_complex_queries.py] both define as
  [SafeSQLTool._run], with the properties the specification states about
  it.

  Python text is modelled as a list of code points.  The code points are
  those of the range U+0000..U+00FF (one [ascii] each); on that range the
  character classes below are the ones CPython uses for [str.strip], and
  for [\s], [\d], [\w], [\b] and [re.I] in a [str] pattern. *)

From Stdlib Require Import List Ascii String NArith ZArith Bool Lia.
Import ListNotations.

Open Scope string_scope.
Open Scope list_scope.

(** ** Text *)

Definition str := list ascii.

Coercion list_ascii_of_string : string >-> list.

Module Char.

Definition code (c : ascii) : N := N_of_ascii c.

Definition between (lo hi : N) (c : ascii) : bool :=
  (lo <=? code c)%N && (code c <=? hi)%N.

(** [str.isspace] on one character, which is also [\s]. *)
Definition isspace (c : ascii) : bool :=
  between 9 13 c || between 28 32 c
  || (code c =? 133)%N || (code c =? 160)%N.

(** [\d]: the decimal digits. *)
Definition isdecimal (c : ascii) : bool := between 48 57 c.

(** [str.isalnum] on one character. *)
Definition isalnum (c : ascii) : bool :=
  between 48 57 c || between 65 90 c || between 97 122 c
  || (code c =? 170)%N || between 178 179 c || (code c =? 181)%N
  || between 185 186 c || between 188 190 c
  || between 192 214 c || between 216 246 c || between 248 255 c.

(** [\w]: alphanumeric or the underscore. *)
Definition isword (c : ascii) : bool := isalnum c || (code c =? 95)%N.

(** The lower-case mapping [re.I] compares characters under. *)
Definition tolower (c : ascii) : ascii :=
  if between 65 90 c || between 192 214 c || between 216 222 c
  then ascii_of_N (code c + 32)
  else c.

End Char.

Module Str.

(** [s.lstrip(chars)] and [s.rstrip(chars)], the set of characters given
    as a predicate. *)
Fixpoint lstrip (f : ascii -> bool) (s : str) : str :=
  match s with
  | c :: s' => if f c then lstrip f s' else s
  | [] => []
  end.

Definition rstrip (f : ascii -> bool) (s : str) : str :=
  rev (lstrip f (rev s)).

(** [s.strip()] *)
Definition strip (s : str) : str :=
  rstrip Char.isspace (lstrip Char.isspace s).

Definition is_semicolon (c : ascii) : bool := (Char.code c =? 59)%N.

(** [";" in s] *)
Definition contains_semicolon (s : str) : bool := existsb is_semicolon s.

(** Equality up to case. *)
Definition ieq (u w : str) : Prop := map Char.tolower u = map Char.tolower w.

End Str.

(** ** Regular expressions

  The fragment of Python's [re] the guardrail uses: literals under
  [re.I], [\s] and [\d] with [*] and [+], [\b], [^], sequencing and
  alternation.  A cursor into the subject text is the character before
  it (if any) and the text after it; running a pattern from a cursor
  gives every cursor at which a match can end, in the order the
  backtracking matcher tries them. *)

Module re.

Inductive atom : Type :=
| Chr (c : ascii)       (* a literal character, compared up to case *)
| Space                 (* \s *)
| Digit.                (* \d *)

Inductive regex : Type :=
| Eps
| One (a : atom)
| Rep0 (a : atom)                 (* a* *)
| Rep1 (a : atom)                 (* a+ *)
| Boundary                        (* \b *)
| Start                           (* ^  *)
| Seq (r1 r2 : regex)
| Alt (r1 r2 : regex).

Definition accepts (a : atom) (x : ascii) : bool :=
  match a with
  | Chr c => Ascii.eqb (Char.tolower x) (Char.tolower c)
  | Space => Char.isspace x
  | Digit => Char.isdecimal x
  end.

Definition cursor : Type := option ascii * str.

Definition word_before (p : option ascii) : bool :=
  match p with Some c => Char.isword c | None => false end.

Definition word_after (l : str) : bool :=
  match l with c :: _ => Char.isword c | [] => false end.

(** Greedy repetition: the longest run first, then the shorter ones. *)
Fixpoint rep (a : atom) (p : option ascii) (l : str) : list cursor :=
  match l with
  | c :: l' => if accepts a c then rep a (Some c) l' ++ [(p, l)] else [(p, l)]
  | [] => [(p, l)]
  end.

Fixpoint exec (r : regex) (st : cursor) : list cursor :=
  match r with
  | Eps => [st]
  | One a =>
      match snd st with
      | c :: l' => if accepts a c then [(Some c, l')] else []
      | [] => []
      end
  | Rep0 a => rep a (fst st) (snd st)
  | Rep1 a =>
      match snd st with
      | c :: l' => if accepts a c then rep a (Some c) l' else []
      | [] => []
      end
  | Boundary =>
      if xorb (word_before (fst st)) (word_after (snd st)) then [st] else []
  | Start => match fst st with None => [st] | Some _ => [] end
  | Seq r1 r2 => flat_map (exec r2) (exec r1 st)
  | Alt r1 r2 => exec r1 st ++ exec r2 st
  end.

Definition matches_at (r : regex) (st : cursor) : bool :=
  match exec r st with [] => false | _ :: _ => true end.

(** Every cursor of a text, left to right. *)
Fixpoint cursors (p : option ascii) (l : str) : list cursor :=
  (p, l) :: match l with c :: l' => cursors (Some c) l' | [] => [] end.

(** [re.match(r, s)] and [re.search(r, s)], as truth values. *)
Definition match_ (r : regex) (s : str) : bool := matches_at r (None, s).

Definition search (r : regex) (s : str) : bool :=
  existsb (matches_at r) (cursors None s).

(** A literal word, each character compared up to case. *)
Definition word (w : str) : regex :=
  fold_right (fun c r => Seq (One (Chr c)) r) Eps w.

(** *** What a pattern matches

    [den r p u w]: the pattern matches exactly the text [u], when the
    character before it is [p] and [w] tells whether the character after
    it is a word character. *)

Definition last_of (p : option ascii) (u : str) : option ascii :=
  fold_left (fun _ c => Some c) u p.

Definition next_word (u : str) (w : bool) : bool :=
  match u with c :: _ => Char.isword c | [] => w end.

Fixpoint den (r : regex) (p : option ascii) (u : str) (w : bool) : Prop :=
  match r with
  | Eps => u = []
  | One a => exists c, u = [c] /\ accepts a c = true
  | Rep0 a => Forall (fun c => accepts a c = true) u
  | Rep1 a => u <> [] /\ Forall (fun c => accepts a c = true) u
  | Boundary => u = [] /\ xorb (word_before p) w = true
  | Start => u = [] /\ p = None
  | Seq r1 r2 =>
      exists u1 u2, u = u1 ++ u2
        /\ den r1 p u1 (next_word u2 w) /\ den r2 (last_of p u1) u2 w
  | Alt r1 r2 => den r1 p u w \/ den r2 p u w
  end.

End re.

(** ** Python computations against the database

    A computation either returns a value or raises an exception, and adds
    to a log of the calls it makes on the SQLAlchemy engine.  Of an
    exception two things matter to [_run]: whether it is an instance of
    [Exception] (SQLAlchemy and DBAPI errors are; [KeyboardInterrupt] and
    [SystemExit] are not), and what [str(e)] does, which is to return a
    text or to raise in its turn. *)

Module Py.

Inductive exn : Type :=
| Exn (is_Exception : bool) (text : str)            (* str(e) returns text *)
| Unprintable (is_Exception : bool) (raised : exn). (* str(e) raises *)

Inductive outcome (A : Type) : Type :=
| Return (a : A)
| Raise (e : exn).

Arguments Return {A} a.
Arguments Raise {A} e.

(** [isinstance(e, Exception)] *)
Definition isinstance_Exception (e : exn) : bool :=
  match e with Exn b _ => b | Unprintable b _ => b end.

(** [str(e)] *)
Definition str_of (e : exn) : outcome str :=
  match e with Exn _ m => Return m | Unprintable _ e' => Raise e' end.

(** An exception of the driver with the text [m], and the one a keyboard
    interrupt raises. *)
Definition Exception (m : str) : exn := Exn true m.
Definition KeyboardInterrupt : exn := Exn false [].

Inductive event : Type :=
| Connect                      (* engine.connect() *)
| Execute (statement : str)    (* conn.exec_driver_sql(statement) *)
| Fetchall                     (* result.fetchall() *)
| Keys                         (* result.keys() *)
| Release.                     (* conn.__exit__(...), on leaving the with block *)

Definition M (A : Type) : Type := list event -> outcome A * list event.

Definition ret {A} (a : A) : M A := fun t => (Return a, t).

Definition bind {A B} (c : M A) (k : A -> M B) : M B :=
  fun t =>
    match c t with
    | (Return a, t') => k a t'
    | (Raise e, t') => (Raise e, t')
    end.

(** A call on the driver: logged, then it returns or raises. *)
Definition call {A} (ev : event) (o : outcome A) : M A :=
  fun t => (o, t ++ [ev]).

(** An operation that makes no call on the driver. *)
Definition lift {A} (o : outcome A) : M A := fun t => (o, t).

(** [try: body except Exception as e: handler(e)]: an exception that is
    no instance of [Exception] is not caught, and neither is one the
    handler raises. *)
Definition try_except {A} (body : M A) (handler : exn -> M A) : M A :=
  fun t =>
    match body t with
    | (Return a, t') => (Return a, t')
    | (Raise e, t') =>
        if isinstance_Exception e then handler e t' else (Raise e, t')
    end.

(** [with acquire as r: body(r)]: [r.__exit__] is called on every way out
    of the block; when it raises, its exception is the one that leaves the
    block, whatever the body returned or raised. *)
Definition with_ {R A} (acquire : M R) (exit : R -> M unit) (body : R -> M A)
  : M A :=
  bind acquire (fun r t =>
    match body r t with
    | (o, t') =>
        match exit r t' with
        | (Return _, t'') => (o, t'')
        | (Raise e, t'') => (Raise e, t'')
        end
    end).

End Py.

Notation "x <- c ;; k" := (Py.bind c (fun x => k))
  (at level 61, c at next level, right associativity).

(** ** The database seen from the tool *)

Inductive value : Type :=
| VNone
| VInt (z : Z)
| VFloat (bits : N)
| VStr (s : str)
| VBytes (b : str).

(** A [Row] of the driver; [list(r)] gives its values. *)
Definition Row : Type := list value.

Record CursorResult : Type := {
  result_fetchall : Py.outcome (list Row);
  result_keys : Py.outcome (list str)
}.

Record Connection : Type := {
  conn_exec_driver_sql : str -> Py.outcome CursorResult;
  conn_exit : Py.outcome unit
}.

Record Engine : Type := {
  engine_connect : Py.outcome Connection
}.

Definition connect (engine : Engine) : Py.M Connection :=
  Py.call Py.Connect (engine_connect engine).

Definition exec_driver_sql (conn : Connection) (s : str) : Py.M CursorResult :=
  Py.call (Py.Execute s) (conn_exec_driver_sql conn s).

Definition fetchall (result : CursorResult) : Py.M (list Row) :=
  Py.call Py.Fetchall (result_fetchall result).

Definition keys (result : CursorResult) : Py.M (list str) :=
  Py.call Py.Keys (result_keys result).

(** [conn.__exit__(...)], which closes the connection. *)
Definition release (conn : Connection) : Py.M unit :=
  Py.call Py.Release (conn_exit conn).

(** What [_run] returns: [str | dict]. *)
Inductive retval : Type :=
| RStr (text : str)
| RDict (columns : list str) (rows : list (list value)).

(** The verdict of the admission part of [_run], in the specification's
    terms. *)
Inductive reason : Type :=
| WriteOperationForbidden
| MultipleStatementsForbidden
| OnlySelectAllowed.

Inductive verdict : Type :=
| Accepted (finalText : str)
| Rejected (why : reason).

(** ** 03_guardrailed_agent.py *)

Module guardrailed_agent_03.
Module SafeSQLTool.

(** [\b(INSERT|UPDATE|DELETE|DROP|TRUNCATE|ALTER|CREATE|REPLACE)\b], re.I *)
Definition write_pattern : re.regex :=
  re.Seq re.Boundary
    (re.Seq
       (re.Alt (re.word "INSERT") (re.Alt (re.word "UPDATE")
       (re.Alt (re.word "DELETE") (re.Alt (re.word "DROP")
       (re.Alt (re.word "TRUNCATE") (re.Alt (re.word "ALTER")
       (re.Alt (re.word "CREATE") (re.word "REPLACE"))))))))
       re.Boundary).

(** [(?is)^\s*select\b] *)
Definition select_pattern : re.regex :=
  re.Seq re.Start
    (re.Seq (re.Rep0 re.Space) (re.Seq (re.word "select") re.Boundary)).

(** [\blimit\s+\d+\b], re.I *)
Definition limit_pattern : re.regex :=
  re.Seq re.Boundary
    (re.Seq (re.word "limit")
       (re.Seq (re.Rep1 re.Space) (re.Seq (re.Rep1 re.Digit) re.Boundary))).

(** [\bcount\(|\bgroup\s+by\b|\bsum\(|\bavg\(|\bmax\(|\bmin\(], re.I *)
Definition aggregate_pattern : re.regex :=
  re.Alt (re.Seq re.Boundary (re.word "count("))
  (re.Alt (re.Seq re.Boundary
             (re.Seq (re.word "group")
                (re.Seq (re.Rep1 re.Space)
                   (re.Seq (re.word "by") re.Boundary))))
  (re.Alt (re.Seq re.Boundary (re.word "sum("))
  (re.Alt (re.Seq re.Boundary (re.word "avg("))
  (re.Alt (re.Seq re.Boundary (re.word "max("))
          (re.Seq re.Boundary (re.word "min(")))))).

(** [SafeSQLTool._run], lines 80-115. *)
Definition _run (engine : Engine) (sql : str) : Py.M retval :=
  let s := Str.rstrip Str.is_semicolon (Str.strip sql) in
  if re.search write_pattern s then
    Py.ret (RStr "ERROR: write operations are not allowed.")
  else if Str.contains_semicolon s then
    Py.ret (RStr "ERROR: multiple statements are not allowed.")
  else if negb (re.match_ select_pattern s) then
    Py.ret (RStr "ERROR: only SELECT statements are allowed.")
  else
    let s :=
      if negb (re.search limit_pattern s)
         && negb (re.search aggregate_pattern s)
      then s ++ " LIMIT 200" else s in
    Py.try_except
      (Py.with_ (connect engine) release (fun conn =>
         result <- exec_driver_sql conn s ;;
         rows <- fetchall result ;;
         ks <- keys result ;;
         cols <- match ks with [] => Py.ret [] | _ :: _ => keys result end ;;
         Py.ret (RDict cols (map (fun r => r) rows))))
      (fun e => m <- Py.lift (Py.str_of e) ;; Py.ret (RStr ("ERROR: " ++ m))).

(** The admission part alone, lines 94-106: what is returned before the
    [try], or the text the [try] is entered with. *)
Definition admission (sql : str) : verdict :=
  let s := Str.rstrip Str.is_semicolon (Str.strip sql) in
  if re.search write_pattern s then Rejected WriteOperationForbidden
  else if Str.contains_semicolon s then Rejected MultipleStatementsForbidden
  else if negb (re.match_ select_pattern s) then Rejected OnlySelectAllowed
  else if negb (re.search limit_pattern s)
          && negb (re.search aggregate_pattern s)
  then Accepted (s ++ " LIMIT 200")
  else Accepted s.

End SafeSQLTool.
End guardrailed_agent_03.

(** ** 04_complex_queries.py *)

Module complex_queries_04.
Module SafeSQLTool.

(** [\b(INSERT|UPDATE|DELETE|DROP|TRUNCATE|ALTER|CREATE|REPLACE)\b], re.I *)
Definition write_pattern : re.regex :=
  re.Seq re.Boundary
    (re.Seq
       (re.Alt (re.word "INSERT") (re.Alt (re.word "UPDATE")
       (re.Alt (re.word "DELETE") (re.Alt (re.word "DROP")
       (re.Alt (re.word "TRUNCATE") (re.Alt (re.word "ALTER")
       (re.Alt (re.word "CREATE") (re.word "REPLACE"))))))))
       re.Boundary).

(** [(?is)^\s*select\b] *)
Definition select_pattern : re.regex :=
  re.Seq re.Start
    (re.Seq (re.Rep0 re.Space) (re.Seq (re.word "select") re.Boundary)).

(** [\blimit\s+\d+\b], re.I *)
Definition limit_pattern : re.regex :=
  re.Seq re.Boundary
    (re.Seq (re.word "limit")
       (re.Seq (re.Rep1 re.Space) (re.Seq (re.Rep1 re.Digit) re.Boundary))).

(** [\bcount\(|\bgroup\s+by\b|\bsum\(|\bavg\(|\bmax\(|\bmin\(], re.I *)
Definition aggregate_pattern : re.regex :=
  re.Alt (re.Seq re.Boundary (re.word "count("))
  (re.Alt (re.Seq re.Boundary
             (re.Seq (re.word "group")
                (re.Seq (re.Rep1 re.Space)
                   (re.Seq (re.word "by") re.Boundary))))
  (re.Alt (re.Seq re.Boundary (re.word "sum("))
  (re.Alt (re.Seq re.Boundary (re.word "avg("))
  (re.Alt (re.Seq re.Boundary (re.word "max("))
          (re.Seq re.Boundary (re.word "min(")))))).

(** [SafeSQLTool._run], lines 83-115. *)
Definition _run (engine : Engine) (sql : str) : Py.M retval :=
  let s := Str.rstrip Str.is_semicolon (Str.strip sql) in
  if re.search write_pattern s then
    Py.ret (RStr "ERROR: write operations are not allowed.")
  else if Str.contains_semicolon s then
    Py.ret (RStr "ERROR: multiple statements are not allowed.")
  else if negb (re.match_ select_pattern s) then
    Py.ret (RStr "ERROR: only SELECT statements are allowed.")
  else
    let s :=
      if negb (re.search limit_pattern s)
         && negb (re.search aggregate_pattern s)
      then s ++ " LIMIT 200" else s in
    Py.try_except
      (Py.with_ (connect engine) release (fun conn =>
         result <- exec_driver_sql conn s ;;
         rows <- fetchall result ;;
         ks <- keys result ;;
         cols <- match ks with [] => Py.ret [] | _ :: _ => keys result end ;;
         Py.ret (RDict cols (map (fun r => r) rows))))
      (fun e => m <- Py.lift (Py.str_of e) ;; Py.ret (RStr ("ERROR: " ++ m))).

(** The admission part alone, lines 94-106. *)
Definition admission (sql : str) : verdict :=
  let s := Str.rstrip Str.is_semicolon (Str.strip sql) in
  if re.search write_pattern s then Rejected WriteOperationForbidden
  else if Str.contains_semicolon s then Rejected MultipleStatementsForbidden
  else if negb (re.match_ select_pattern s) then Rejected OnlySelectAllowed
  else if negb (re.search limit_pattern s)
          && negb (re.search aggregate_pattern s)
  then Accepted (s ++ " LIMIT 200")
  else Accepted s.

End SafeSQLTool.
End complex_queries_04.

(** ** The two scripts side by side *)

Inductive script : Type :=
| guardrailed_agent     (* 03_guardrailed_agent.py *)
| complex_queries.      (* 04_complex_queries.py *)

Definition run (which : script) : Engine -> str -> Py.M retval :=
  match which with
  | guardrailed_agent => guardrailed_agent_03.SafeSQLTool._run
  | complex_queries => complex_queries_04.SafeSQLTool._run
  end.

Definition admission (which : script) : str -> verdict :=
  match which with
  | guardrailed_agent => guardrailed_agent_03.SafeSQLTool.admission
  | complex_queries => complex_queries_04.SafeSQLTool.admission
  end.

(** Line 94 of both scripts: [s = sql.strip().rstrip(";")]. *)
Definition normalize (sql : str) : str :=
  Str.rstrip Str.is_semicolon (Str.strip sql).

(** The text a rejection is surfaced as. *)
Definition message (why : reason) : str :=
  match why with
  | WriteOperationForbidden => "ERROR: write operations are not allowed."
  | MultipleStatementsForbidden => "ERROR: multiple statements are not allowed."
  | OnlySelectAllowed => "ERROR: only SELECT statements are allowed."
  end.

(** The [try] block of [_run] on its own: the execution adapter without
    its [except] clause. *)
Definition execute_body (engine : Engine) (s : str) : Py.M retval :=
  Py.with_ (connect engine) release (fun conn =>
    result <- exec_driver_sql conn s ;;
    rows <- fetchall result ;;
    ks <- keys result ;;
    cols <- match ks with [] => Py.ret [] | _ :: _ => keys result end ;;
    Py.ret (RDict cols (map (fun r => r) rows))).

(** ** The specification's vocabulary

    The notions the specification words its rules with, stated on the text
    alone and without reference to the patterns of the scripts. *)

Module Spec.

Definition write_keywords : list str :=
  [ "INSERT" : str; "UPDATE" : str; "DELETE" : str; "DROP" : str;
    "TRUNCATE" : str; "ALTER" : str; "CREATE" : str; "REPLACE" : str ].

(** The text [a] ends in an identifier character; the text [b] begins with
    one. *)
Definition word_at_end (a : str) : bool := re.word_before (re.last_of None a).
Definition word_at_start (b : str) : bool := re.word_after b.

Definition spaces (ws : str) : Prop := Forall (fun c => Char.isspace c = true) ws.
Definition digits (ds : str) : Prop := Forall (fun c => Char.isdecimal c = true) ds.

(** [kw] occurs in [s] as a whole word, up to case: bounded on each side
    by the end of the text or by a character that is not an identifier
    character. *)
Definition whole_word (kw s : str) : Prop :=
  exists a u b, s = a ++ u ++ b /\ Str.ieq u kw
    /\ word_at_end a = false /\ word_at_start b = false.

(** A text made of identifier characters only, and at least one. *)
Definition wordish (u : str) : Prop := u <> [] /\ forallb Char.isword u = true.

Definition contains_write_keyword (s : str) : Prop :=
  exists kw, In kw write_keywords /\ whole_word kw s.

(** [s] contains a statement terminator. *)
Definition contains_terminator (s : str) : Prop := In ";"%char s.

(** [s] begins, after any white space, with the keyword SELECT. *)
Definition begins_with_select (s : str) : Prop :=
  exists ws u b, s = ws ++ u ++ b /\ spaces ws /\ Str.ieq u "select"
    /\ word_at_start b = false.

(** [s] contains a row-limiting clause [LIMIT <integer>]. *)
Definition contains_limit (s : str) : Prop :=
  exists a k ws ds b, s = a ++ k ++ ws ++ ds ++ b
    /\ word_at_end a = false /\ Str.ieq k "limit"
    /\ ws <> [] /\ spaces ws /\ ds <> [] /\ digits ds
    /\ word_at_start b = false.

(** [s] contains a call of the function [name]: the name, not preceded by
    an identifier character, and an opening parenthesis. *)
Definition contains_call (name s : str) : Prop :=
  exists a u b, s = a ++ u ++ b /\ word_at_end a = false
    /\ Str.ieq u (name ++ "(").

(** [s] contains [GROUP BY]: the two words, white space between them. *)
Definition contains_group_by (s : str) : Prop :=
  exists a g ws y b, s = a ++ g ++ ws ++ y ++ b
    /\ word_at_end a = false /\ Str.ieq g "group"
    /\ ws <> [] /\ spaces ws /\ Str.ieq y "by"
    /\ word_at_start b = false.

Definition contains_aggregate (s : str) : Prop :=
  contains_call "count" s \/ contains_group_by s \/ contains_call "sum" s
  \/ contains_call "avg" s \/ contains_call "max" s \/ contains_call "min" s.

(** The rejection rules of the admission filter: when each one matches,
    and the step of the algorithm it is. *)
Definition fires (why : reason) (s : str) : Prop :=
  match why with
  | WriteOperationForbidden => contains_write_keyword s
  | MultipleStatementsForbidden => contains_terminator s
  | OnlySelectAllowed => ~ begins_with_select s
  end.

Definition step (why : reason) : nat :=
  match why with
  | WriteOperationForbidden => 2
  | MultipleStatementsForbidden => 3
  | OnlySelectAllowed => 4
  end.

Definition earlier (r1 r2 : reason) : Prop := step r1 < step r2.

(** The execution of a final text [f], told from the engine alone.
    Either every call succeeds, the release of the connection included,
    and gives the keys [cols] and the rows [rows]; or an exception leaves
    the [with] block: that of [engine.connect()], or else that of the
    release when the release raises, or else that of the first call in
    the block that raises. *)
Inductive succeeds (engine : Engine) (f : str)
    (cols : list str) (rows : list Row) : Prop :=
| all_succeed (conn : Connection) (result : CursorResult) :
    engine_connect engine = Py.Return conn ->
    conn_exec_driver_sql conn f = Py.Return result ->
    result_fetchall result = Py.Return rows ->
    result_keys result = Py.Return cols ->
    conn_exit conn = Py.Return tt ->
    succeeds engine f cols rows.

Inductive escapes (engine : Engine) (f : str) (e : Py.exn) : Prop :=
| connect_raises :
    engine_connect engine = Py.Raise e ->
    escapes engine f e
| release_raises (conn : Connection) :
    engine_connect engine = Py.Return conn ->
    conn_exit conn = Py.Raise e ->
    escapes engine f e
| execute_raises (conn : Connection) :
    engine_connect engine = Py.Return conn ->
    conn_exit conn = Py.Return tt ->
    conn_exec_driver_sql conn f = Py.Raise e ->
    escapes engine f e
| fetchall_raises (conn : Connection) (result : CursorResult) :
    engine_connect engine = Py.Return conn ->
    conn_exit conn = Py.Return tt ->
    conn_exec_driver_sql conn f = Py.Return result ->
    result_fetchall result = Py.Raise e ->
    escapes engine f e
| keys_raises (conn : Connection) (result : CursorResult) (rows : list Row) :
    engine_connect engine = Py.Return conn ->
    conn_exit conn = Py.Return tt ->
    conn_exec_driver_sql conn f = Py.Return result ->
    result_fetchall result = Py.Return rows ->
    result_keys result = Py.Raise e ->
    escapes engine f e.

(** Two characters that are the same, or the two cases of one of the
    letters A to Z; two texts that differ in the case of those letters
    only. *)
Definition same_letter (c d : ascii) : Prop :=
  c = d
  \/ (Char.between 65 90 c = true /\ Char.code d = (Char.code c + 32)%N)
  \/ (Char.between 65 90 d = true /\ Char.code c = (Char.code d + 32)%N).

Definition same_up_to_case (u w : str) : Prop := Forall2 same_letter u w.

End Spec.

(** * Properties *)

(** ** Characters *)

Module CharFacts.

Ltac each_char c := destruct c as [[] [] [] [] [] [] [] []].

Lemma space_not_word (c : ascii) : Char.isspace c = true -> Char.isword c = false.
Proof. each_char c; vm_compute; congruence. Qed.

Lemma decimal_is_word (c : ascii) : Char.isdecimal c = true -> Char.isword c = true.
Proof. each_char c; vm_compute; congruence. Qed.

Lemma tolower_word (c : ascii) : Char.isword (Char.tolower c) = Char.isword c.
Proof. each_char c; vm_compute; reflexivity. Qed.

Lemma tolower_space (c : ascii) : Char.isspace (Char.tolower c) = Char.isspace c.
Proof. each_char c; vm_compute; reflexivity. Qed.

Lemma is_semicolon_eq (c : ascii) : Str.is_semicolon c = true <-> c = ";"%char.
Proof.
  unfold Str.is_semicolon, Char.code. rewrite N.eqb_eq. split.
  - intros H. rewrite <- (ascii_N_embedding c), H. reflexivity.
  - intros ->. reflexivity.
Qed.

End CharFacts.

(** ** The matcher against what a pattern matches *)

Module reFacts.
Import re.

Lemma last_of_app (p : option ascii) (u v : str) :
  last_of p (u ++ v) = last_of (last_of p u) v.
Proof. apply fold_left_app. Qed.

Lemma last_of_snoc (p : option ascii) (u : str) (c : ascii) :
  last_of p (u ++ [c]) = Some c.
Proof. rewrite last_of_app. reflexivity. Qed.

Lemma word_after_app (u l : str) :
  word_after (u ++ l) = next_word u (word_after l).
Proof. destruct u; reflexivity. Qed.

Lemma next_word_app (u v : str) (w : bool) :
  next_word (u ++ v) w = next_word u (next_word v w).
Proof. destruct u; reflexivity. Qed.

Lemma rep_spec (a : atom) (l : str) : forall p p' l',
  In (p', l') (rep a p l) <->
  exists u, l = u ++ l' /\ p' = last_of p u
            /\ Forall (fun c => accepts a c = true) u.
Proof.
  induction l as [|c l IH]; intros p p' l'; simpl.
  - split.
    + intros [H|[]]. inversion H; subst. exists []. auto.
    + intros (u & Hl & Hp & _). symmetry in Hl.
      apply app_eq_nil in Hl as [-> ->]. left. subst. reflexivity.
  - destruct (accepts a c) eqn:Hc.
    + rewrite in_app_iff, IH. simpl. split.
      * intros [(u & -> & -> & Hu)|[H|[]]].
        -- exists (c :: u). repeat split; auto.
        -- inversion H; subst. exists []. auto.
      * intros (u & Hl & Hp & Hu). destruct u as [|d u]; simpl in Hl.
        -- right. left. subst. reflexivity.
        -- inversion Hl; subst. left. exists u.
           inversion Hu; subst. auto.
    + split.
      * intros [H|[]]. inversion H; subst. exists []. auto.
      * intros (u & Hl & Hp & Hu). destruct u as [|d u]; simpl in Hl.
        -- left. subst. reflexivity.
        -- inversion Hl; subst. inversion Hu; subst. congruence.
Qed.

(** The matcher ends a match at a cursor exactly when the text it went
    over is one the pattern matches. *)
Lemma exec_den (r : regex) : forall p l p' l',
  In (p', l') (exec r (p, l)) <->
  exists u, l = u ++ l' /\ p' = last_of p u /\ den r p u (word_after l').
Proof.
  induction r as [|a|a|a| | |r1 IH1 r2 IH2|r1 IH1 r2 IH2];
    intros p l p' l'; simpl.
  - split.
    + intros [H|[]]. inversion H; subst. exists []. auto.
    + intros (u & -> & -> & ->). left. reflexivity.
  - destruct l as [|c l].
    + split; [intros []|].
      intros (u & Hl & _ & d & -> & _). discriminate.
    + destruct (accepts a c) eqn:Hc; split.
      * intros [H|[]]. inversion H; subst. exists [c]. eauto.
      * intros (u & Hl & -> & d & -> & _). inversion Hl; subst. left. reflexivity.
      * intros [].
      * intros (u & Hl & _ & d & -> & Hd). inversion Hl; subst. congruence.
  - apply rep_spec.
  - destruct l as [|c l].
    + split; [intros []|].
      intros (u & Hl & _ & Hne & _). destruct u; [congruence|discriminate].
    + destruct (accepts a c) eqn:Hc.
      * rewrite rep_spec. split.
        -- intros (u & -> & -> & Hu). exists (c :: u).
           repeat split; auto. discriminate.
        -- intros (u & Hl & -> & Hne & Hu). destruct u as [|d u]; [congruence|].
           inversion Hl; subst. inversion Hu; subst. exists u. auto.
      * split; [intros []|].
        intros (u & Hl & _ & Hne & Hu). destruct u as [|d u]; [congruence|].
        inversion Hl; subst. inversion Hu; subst. congruence.
  - destruct (xorb (word_before p) (word_after l)) eqn:Hx; split.
    + intros [H|[]]. inversion H; subst. exists []. auto.
    + intros (u & -> & -> & -> & _). left. reflexivity.
    + intros [].
    + intros (u & -> & _ & -> & H). simpl in Hx. congruence.
  - destruct p as [c|]; split.
    + intros [].
    + intros (u & _ & _ & _ & H). discriminate.
    + intros [H|[]]. inversion H; subst. exists []. auto.
    + intros (u & -> & -> & -> & _). left. reflexivity.
  - rewrite in_flat_map. split.
    + intros ([pm lm] & H1 & H2).
      apply IH1 in H1 as (u1 & -> & -> & D1).
      apply IH2 in H2 as (u2 & -> & -> & D2).
      exists (u1 ++ u2). rewrite <- app_assoc, last_of_app.
      repeat split; auto. exists u1, u2.
      rewrite word_after_app in D1. auto.
    + intros (u & -> & -> & u1 & u2 & -> & D1 & D2).
      exists (last_of p u1, u2 ++ l'). split.
      * apply IH1. exists u1. rewrite <- app_assoc, word_after_app. auto.
      * apply IH2. exists u2. rewrite last_of_app. auto.
  - rewrite in_app_iff, IH1, IH2. split.
    + intros [(u & ? & ? & ?)|(u & ? & ? & ?)]; exists u; auto.
    + intros (u & ? & ? & [?|?]); [left|right]; exists u; auto.
Qed.

Lemma in_nonempty (x : cursor) (l : list cursor) :
  In x l -> match l with [] => false | _ :: _ => true end = true.
Proof. destruct l; [intros []|reflexivity]. Qed.

Lemma matches_at_den (r : regex) (p : option ascii) (l : str) :
  matches_at r (p, l) = true <->
  exists u b, l = u ++ b /\ den r p u (word_after b).
Proof.
  unfold matches_at. split.
  - destruct (exec r (p, l)) as [|[p' l'] rest] eqn:E; [discriminate|].
    intros _. assert (H : In (p', l') (exec r (p, l))) by (rewrite E; left; auto).
    apply exec_den in H as (u & -> & _ & D). eauto.
  - intros (u & b & -> & D).
    assert (H : In (last_of p u, b) (exec r (p, u ++ b))).
    { apply exec_den. eauto. }
    exact (in_nonempty _ _ H).
Qed.

Lemma cursors_spec (l : str) : forall p q b,
  In (q, b) (cursors p l) <-> exists a, l = a ++ b /\ q = last_of p a.
Proof.
  induction l as [|c l IH]; intros p q b; simpl.
  - split.
    + intros [H|[]]. inversion H; subst. exists []. auto.
    + intros (a & Hl & ->). symmetry in Hl.
      apply app_eq_nil in Hl as [-> ->]. left. reflexivity.
  - rewrite IH. split.
    + intros [H|(a & -> & ->)].
      * inversion H; subst. exists []. auto.
      * exists (c :: a). auto.
    + intros ([|d a] & Hl & ->); simpl in Hl.
      * left. subst. reflexivity.
      * inversion Hl; subst. right. exists a. auto.
Qed.

(** [re.search] finds a match exactly when the text splits into a part
    before, a part the pattern matches, and a part after. *)
Lemma search_den (r : regex) (s : str) :
  search r s = true <->
  exists a u b, s = a ++ u ++ b /\ den r (last_of None a) u (word_after b).
Proof.
  unfold search. rewrite existsb_exists. split.
  - intros ([q l] & Hin & Hm). apply cursors_spec in Hin as (a & -> & ->).
    apply matches_at_den in Hm as (u & b & -> & D). eauto.
  - intros (a & u & b & -> & D). exists (last_of None a, u ++ b). split.
    + apply cursors_spec. eauto.
    + apply matches_at_den. eauto.
Qed.

Lemma match_den (r : regex) (s : str) :
  match_ r s = true <-> exists u b, s = u ++ b /\ den r None u (word_after b).
Proof. apply matches_at_den. Qed.

End reFacts.

(** ** The patterns of the scripts in the specification's vocabulary *)

Module PatternFacts.
Import re reFacts Spec.
Import guardrailed_agent_03.SafeSQLTool.

Lemma den_word (w : str) : forall p u nw, den (word w) p u nw <-> Str.ieq u w.
Proof.
  induction w as [|c w IH]; intros p u nw.
  - simpl. unfold Str.ieq. split; [intros ->; reflexivity|].
    destruct u; [reflexivity|discriminate].
  - change (word (c :: w)) with (Seq (One (Chr c)) (word w)).
    cbn [den accepts]. unfold Str.ieq in *. split.
    + intros (u1 & u2 & -> & (d & -> & Hd) & D). apply IH in D.
      apply Ascii.eqb_eq in Hd. simpl. congruence.
    + intros H. destruct u as [|d u]; [discriminate|].
      simpl in H. injection H as Hd Hu.
      exists [d], u. split; [reflexivity|]. split.
      * exists d. split; [reflexivity|]. apply Ascii.eqb_eq. exact Hd.
      * apply IH. exact Hu.
Qed.

Lemma den_boundary_l (r : regex) p u nw :
  den (Seq Boundary r) p u nw <->
  xorb (word_before p) (next_word u nw) = true /\ den r p u nw.
Proof.
  cbn [den]. split.
  - intros (u1 & u2 & -> & (-> & Hx) & D). auto.
  - intros (Hx & D). exists [], u. auto.
Qed.

Lemma den_boundary_r (r : regex) p u nw :
  den (Seq r Boundary) p u nw <->
  den r p u nw /\ xorb (word_before (last_of p u)) nw = true.
Proof.
  cbn [den]. split.
  - intros (u1 & u2 & -> & D & (-> & Hx)). rewrite app_nil_r. auto.
  - intros (D & Hx). exists u, []. rewrite app_nil_r. auto.
Qed.

Lemma den_seq_word (w : str) (r : regex) p u nw :
  den (Seq (word w) r) p u nw <->
  exists k v, u = k ++ v /\ Str.ieq k w /\ den r (last_of p k) v nw.
Proof.
  cbn [den]. split.
  - intros (k & v & -> & D1 & D2). apply den_word in D1. eauto.
  - intros (k & v & -> & D1 & D2). exists k, v.
    split; [reflexivity|]. split; [apply den_word|]; assumption.
Qed.

Lemma ieq_forallb (P : ascii -> bool) (u w : str) :
  (forall c, P (Char.tolower c) = P c) ->
  Str.ieq u w -> forallb P u = forallb P w.
Proof.
  intros HP. unfold Str.ieq. revert w.
  induction u as [|c u IH]; intros [|d w] H; try discriminate; auto.
  simpl in H. injection H as Hc Hu. simpl.
  rewrite (IH _ Hu), <- (HP c), Hc, HP. reflexivity.
Qed.

Lemma ieq_nonempty (u w : str) : Str.ieq u w -> w <> [] -> u <> [].
Proof. unfold Str.ieq. intros H Hw ->. destruct w; [congruence|discriminate]. Qed.

Lemma ieq_app (u w1 w2 : str) :
  Str.ieq u (w1 ++ w2) ->
  exists u1 u2, u = u1 ++ u2 /\ Str.ieq u1 w1 /\ Str.ieq u2 w2.
Proof.
  unfold Str.ieq. revert u. induction w1 as [|c w1 IH]; intros u H.
  - exists [], u. auto.
  - destruct u as [|d u]; [discriminate|]. simpl in H. injection H as Hd Hu.
    destruct (IH _ Hu) as (u1 & u2 & -> & H1 & H2).
    exists (d :: u1), u2. simpl. repeat split; congruence.
Qed.

Lemma ieq_wordish (u w : str) : Str.ieq u w -> wordish w -> wordish u.
Proof.
  intros H [Hne Hw]. split.
  - eapply ieq_nonempty; eauto.
  - rewrite (ieq_forallb _ u w CharFacts.tolower_word H). exact Hw.
Qed.

Lemma wordish_first (u : str) (nw : bool) : wordish u -> next_word u nw = true.
Proof.
  intros [Hne Hw]. destruct u as [|c u]; [congruence|].
  simpl in *. apply andb_true_iff in Hw as [Hc _]. exact Hc.
Qed.

Lemma wordish_last (u : str) (p : option ascii) :
  wordish u -> word_before (last_of p u) = true.
Proof.
  intros [Hne Hw]. destruct (exists_last Hne) as (v & c & ->).
  rewrite last_of_snoc. rewrite forallb_app in Hw.
  apply andb_true_iff in Hw as [_ Hc]. simpl in *.
  rewrite andb_true_r in Hc. exact Hc.
Qed.

Lemma wordish_app_l (u v : str) (nw : bool) :
  wordish u -> next_word (u ++ v) nw = true.
Proof. intros H. rewrite next_word_app. apply wordish_first, H. Qed.

Lemma xorb_true_r_iff (a : bool) : xorb a true = true <-> a = false.
Proof. destruct a; simpl; split; congruence. Qed.

Lemma xorb_true_l_iff (a : bool) : xorb true a = true <-> a = false.
Proof. destruct a; simpl; split; congruence. Qed.

Lemma write_keywords_wordish (kw : str) :
  In kw Spec.write_keywords -> wordish kw.
Proof.
  intros H. repeat (destruct H as [<-|H]; [split; [discriminate|reflexivity]|]).
  destruct H.
Qed.

(** [\b(INSERT|...|REPLACE)\b] *)
Lemma den_write p u nw :
  den write_pattern p u nw <->
  (exists kw, In kw Spec.write_keywords /\ Str.ieq u kw)
  /\ word_before p = false /\ nw = false.
Proof.
  unfold write_pattern. rewrite den_boundary_l, den_boundary_r.
  cbn [den]. rewrite !den_word.
  assert (K : (Str.ieq u "INSERT" \/ Str.ieq u "UPDATE" \/ Str.ieq u "DELETE"
               \/ Str.ieq u "DROP" \/ Str.ieq u "TRUNCATE" \/ Str.ieq u "ALTER"
               \/ Str.ieq u "CREATE" \/ Str.ieq u "REPLACE")
              <-> exists kw, In kw Spec.write_keywords /\ Str.ieq u kw).
  { split.
    - intros H. repeat (destruct H as [H|H]; [eexists; split; [|exact H]; simpl; tauto|]).
      eexists; split; [|exact H]; simpl; tauto.
    - intros (kw & Hin & H). simpl in Hin.
      repeat (destruct Hin as [<-|Hin]; [tauto|]). destruct Hin. }
  rewrite K. split.
  - intros (Hl & (kw & Hin & H) & Hr).
    assert (W : wordish u) by (eapply ieq_wordish; eauto using write_keywords_wordish).
    rewrite (wordish_first u nw W) in Hl. rewrite (wordish_last u p W) in Hr.
    apply xorb_true_r_iff in Hl. apply xorb_true_l_iff in Hr. eauto.
  - intros ((kw & Hin & H) & Hp & ->).
    assert (W : wordish u) by (eapply ieq_wordish; eauto using write_keywords_wordish).
    rewrite (wordish_first u false W), (wordish_last u p W), Hp. eauto.
Qed.

Lemma write_search (s : str) :
  search write_pattern s = true <-> Spec.contains_write_keyword s.
Proof.
  rewrite search_den. unfold Spec.contains_write_keyword, Spec.whole_word,
    Spec.word_at_end, Spec.word_at_start. split.
  - intros (a & u & b & -> & D). apply den_write in D as ((kw & Hin & H) & Hp & Hn).
    exists kw. split; [exact Hin|]. exists a, u, b. auto.
  - intros (kw & Hin & a & u & b & -> & H & Hp & Hn). exists a, u, b.
    split; [reflexivity|]. apply den_write. eauto.
Qed.

Lemma semicolon_search (s : str) :
  Str.contains_semicolon s = true <-> Spec.contains_terminator s.
Proof.
  unfold Str.contains_semicolon, Spec.contains_terminator.
  rewrite existsb_exists. split.
  - intros (c & Hin & Hc). apply CharFacts.is_semicolon_eq in Hc. congruence.
  - intros H. exists ";"%char. split; [exact H|reflexivity].
Qed.

Lemma den_alt (r1 r2 : regex) p u nw :
  den (Alt r1 r2) p u nw <-> den r1 p u nw \/ den r2 p u nw.
Proof. reflexivity. Qed.

Lemma den_seq (r1 r2 : regex) p u nw :
  den (Seq r1 r2) p u nw <->
  exists u1 u2, u = u1 ++ u2
    /\ den r1 p u1 (next_word u2 nw) /\ den r2 (last_of p u1) u2 nw.
Proof. reflexivity. Qed.

Lemma digits_wordish (ds : str) : ds <> [] -> digits ds -> wordish ds.
Proof.
  intros Hne H. split; [exact Hne|]. apply forallb_forall.
  intros c Hc. apply CharFacts.decimal_is_word.
  unfold digits in H. rewrite Forall_forall in H. auto.
Qed.

(** [^\s*select\b] *)
Lemma den_select p u nw :
  den select_pattern p u nw <->
  p = None /\ nw = false
  /\ exists ws k, u = ws ++ k /\ spaces ws /\ Str.ieq k "select".
Proof.
  unfold select_pattern. split.
  - intros D. apply den_seq in D as (u1 & u2 & -> & D1 & D2).
    cbn [den] in D1. destruct D1 as [-> ->].
    apply den_seq in D2 as (ws & k & -> & Dws & D3). cbn [den accepts] in Dws.
    apply den_boundary_r in D3 as [Dk Hx]. apply den_word in Dk.
    assert (W : wordish k) by (eapply ieq_wordish; [exact Dk|split; [discriminate|reflexivity]]).
    rewrite (wordish_last _ _ W) in Hx. apply xorb_true_l_iff in Hx.
    repeat split; auto. exists ws, k. auto.
  - intros (-> & -> & ws & k & -> & Hws & Hk).
    assert (W : wordish k) by (eapply ieq_wordish; [exact Hk|split; [discriminate|reflexivity]]).
    apply den_seq. exists [], (ws ++ k). split; [reflexivity|].
    split; [cbn [den]; auto|].
    apply den_seq. exists ws, k. split; [reflexivity|].
    split; [exact Hws|]. apply den_boundary_r. split; [apply den_word, Hk|].
    rewrite (wordish_last _ _ W). reflexivity.
Qed.

(** [\blimit\s+\d+\b] *)
Lemma den_limit p u nw :
  den limit_pattern p u nw <->
  word_before p = false /\ nw = false
  /\ exists k ws ds, u = k ++ ws ++ ds /\ Str.ieq k "limit"
       /\ ws <> [] /\ spaces ws /\ ds <> [] /\ digits ds.
Proof.
  unfold limit_pattern. split.
  - intros D. apply den_boundary_l in D as [Hl D].
    apply den_seq_word in D as (k & v & -> & Hk & D).
    apply den_seq in D as (ws & v2 & -> & [Hne Hws] & D).
    apply den_boundary_r in D as [[Hnd Hds] Hr]. cbn [accepts] in *.
    assert (Wk : wordish k) by (eapply ieq_wordish; [exact Hk|split; [discriminate|reflexivity]]).
    assert (Wd : wordish v2) by (apply digits_wordish; assumption).
    rewrite (wordish_app_l _ _ _ Wk) in Hl. rewrite (wordish_last _ _ Wd) in Hr.
    apply xorb_true_r_iff in Hl. apply xorb_true_l_iff in Hr.
    repeat split; auto. exists k, ws, v2. repeat split; auto.
  - intros (Hp & -> & k & ws & ds & -> & Hk & Hne & Hws & Hnd & Hds).
    assert (Wk : wordish k) by (eapply ieq_wordish; [exact Hk|split; [discriminate|reflexivity]]).
    assert (Wd : wordish ds) by (apply digits_wordish; assumption).
    apply den_boundary_l. rewrite (wordish_app_l _ _ _ Wk), Hp.
    split; [reflexivity|]. apply den_seq_word. exists k, (ws ++ ds).
    repeat split; auto. apply den_seq. exists ws, ds. split; [reflexivity|].
    split; [split; assumption|]. apply den_boundary_r.
    split; [split; assumption|]. rewrite (wordish_last _ _ Wd). reflexivity.
Qed.

(** [\bname\(] *)
Lemma den_call (name : str) p u nw :
  wordish name ->
  den (Seq Boundary (word (name ++ "("))) p u nw <->
  word_before p = false /\ Str.ieq u (name ++ "(").
Proof.
  intros W. rewrite den_boundary_l, den_word. split.
  - intros [Hl H]. split; [|exact H].
    destruct (ieq_app _ _ _ H) as (u1 & u2 & -> & H1 & _).
    rewrite (wordish_app_l _ _ _ (ieq_wordish _ _ H1 W)) in Hl.
    apply xorb_true_r_iff in Hl. exact Hl.
  - intros [Hp H]. split; [|exact H].
    destruct (ieq_app _ _ _ H) as (u1 & u2 & -> & H1 & _).
    rewrite (wordish_app_l _ _ _ (ieq_wordish _ _ H1 W)), Hp. reflexivity.
Qed.

(** [\bgroup\s+by\b] *)
Lemma den_group_by p u nw :
  den (Seq Boundary
         (Seq (word "group") (Seq (Rep1 Space) (Seq (word "by") Boundary))))
      p u nw <->
  word_before p = false /\ nw = false
  /\ exists g ws y, u = g ++ ws ++ y /\ Str.ieq g "group"
       /\ ws <> [] /\ spaces ws /\ Str.ieq y "by".
Proof.
  split.
  - intros D. apply den_boundary_l in D as [Hl D].
    apply den_seq_word in D as (g & v & -> & Hg & D).
    apply den_seq in D as (ws & y & -> & [Hne Hws] & D).
    apply den_boundary_r in D as [Hy Hr]. apply den_word in Hy.
    cbn [accepts] in *.
    assert (Wg : wordish g) by (eapply ieq_wordish; [exact Hg|split; [discriminate|reflexivity]]).
    assert (Wy : wordish y) by (eapply ieq_wordish; [exact Hy|split; [discriminate|reflexivity]]).
    rewrite (wordish_app_l _ _ _ Wg) in Hl. rewrite (wordish_last _ _ Wy) in Hr.
    apply xorb_true_r_iff in Hl. apply xorb_true_l_iff in Hr.
    repeat split; auto. exists g, ws, y. repeat split; auto.
  - intros (Hp & -> & g & ws & y & -> & Hg & Hne & Hws & Hy).
    assert (Wg : wordish g) by (eapply ieq_wordish; [exact Hg|split; [discriminate|reflexivity]]).
    assert (Wy : wordish y) by (eapply ieq_wordish; [exact Hy|split; [discriminate|reflexivity]]).
    apply den_boundary_l. rewrite (wordish_app_l _ _ _ Wg), Hp.
    split; [reflexivity|]. apply den_seq_word. exists g, (ws ++ y).
    repeat split; auto. apply den_seq. exists ws, y. split; [reflexivity|].
    split; [split; assumption|]. apply den_boundary_r.
    split; [apply den_word, Hy|]. rewrite (wordish_last _ _ Wy). reflexivity.
Qed.

Lemma name_wordish (name : string) :
  (match list_ascii_of_string name with [] => false | _ :: _ => true end
   && forallb Char.isword name)%bool = true ->
  wordish name.
Proof.
  intros H. apply andb_true_iff in H as [H1 H2]. split; [|exact H2].
  destruct (list_ascii_of_string name); [discriminate|discriminate].
Qed.

(** [\bcount\(|\bgroup\s+by\b|\bsum\(|\bavg\(|\bmax\(|\bmin\(] *)
Lemma den_aggregate p u nw :
  den aggregate_pattern p u nw <->
  word_before p = false
  /\ (Str.ieq u ("count" ++ "(")
      \/ (nw = false /\ exists g ws y, u = g ++ ws ++ y /\ Str.ieq g "group"
                          /\ ws <> [] /\ spaces ws /\ Str.ieq y "by")
      \/ Str.ieq u ("sum" ++ "(") \/ Str.ieq u ("avg" ++ "(")
      \/ Str.ieq u ("max" ++ "(") \/ Str.ieq u ("min" ++ "(")).
Proof.
  unfold aggregate_pattern.
  change (word "count(") with (word ("count" ++ "(")).
  change (word "sum(") with (word ("sum" ++ "(")).
  change (word "avg(") with (word ("avg" ++ "(")).
  change (word "max(") with (word ("max" ++ "(")).
  change (word "min(") with (word ("min" ++ "(")).
  rewrite !den_alt, den_group_by.
  rewrite !den_call by (apply name_wordish; reflexivity).
  tauto.
Qed.

Lemma select_match (s : str) :
  match_ select_pattern s = true <-> begins_with_select s.
Proof.
  rewrite match_den. unfold begins_with_select, word_at_start. split.
  - intros (u & b & -> & D). apply den_select in D as (_ & Hn & ws & k & -> & Hws & Hk).
    exists ws, k, b. rewrite <- app_assoc. auto.
  - intros (ws & k & b & -> & Hws & Hk & Hn). exists (ws ++ k), b.
    rewrite <- app_assoc. split; [reflexivity|]. apply den_select.
    repeat split; auto. exists ws, k. auto.
Qed.

Lemma limit_search (s : str) :
  search limit_pattern s = true <-> contains_limit s.
Proof.
  rewrite search_den. unfold contains_limit, word_at_start, word_at_end. split.
  - intros (a & u & b & -> & D).
    apply den_limit in D as (Hp & Hn & k & ws & ds & -> & H).
    exists a, k, ws, ds, b. rewrite <- !app_assoc. tauto.
  - intros (a & k & ws & ds & b & -> & Hp & Hk & Hne & Hws & Hnd & Hds & Hn).
    exists a, (k ++ ws ++ ds), b. rewrite <- !app_assoc.
    split; [reflexivity|]. apply den_limit.
    split; [exact Hp|]. split; [exact Hn|]. exists k, ws, ds. tauto.
Qed.

Lemma aggregate_search (s : str) :
  search aggregate_pattern s = true <-> contains_aggregate s.
Proof.
  rewrite search_den.
  unfold contains_aggregate, contains_call, contains_group_by,
    word_at_start, word_at_end. split.
  - intros (a & u & b & -> & D). apply den_aggregate in D as [Hp D].
    destruct D as [D|[(Hn & g & ws & y & -> & H)|[D|[D|[D|D]]]]].
    + left. exists a, u, b. auto.
    + right. left. exists a, g, ws, y, b. rewrite <- !app_assoc. tauto.
    + do 2 right. left. exists a, u, b. auto.
    + do 3 right. left. exists a, u, b. auto.
    + do 4 right. left. exists a, u, b. auto.
    + do 5 right. exists a, u, b. auto.
  - intros H.
    destruct H as [H|[H|[H|[H|[H|H]]]]].
    2:{ destruct H as (a & g & ws & y & b & -> & Hp & Hg & Hne & Hws & Hy & Hn).
        exists a, (g ++ ws ++ y), b. rewrite <- !app_assoc.
        split; [reflexivity|]. apply den_aggregate. split; [exact Hp|].
        right. left. split; [exact Hn|]. exists g, ws, y. auto. }
    all: destruct H as (a & u & b & -> & Hp & Hu); exists a, u, b;
      (split; [reflexivity|]); apply den_aggregate; (split; [exact Hp|]); tauto.
Qed.

End PatternFacts.

(** ** Stripping *)

Module StrFacts.
Import Str.

Lemma lstrip_split (f : ascii -> bool) (s : str) :
  exists pre, s = pre ++ lstrip f s /\ Forall (fun c => f c = true) pre.
Proof.
  induction s as [|c s (pre & E & H)]; simpl.
  - exists []. auto.
  - destruct (f c) eqn:Hc.
    + exists (c :: pre). simpl. split; [congruence|]. constructor; assumption.
    + exists []. auto.
Qed.

Lemma lstrip_head (f : ascii -> bool) (s : str) c l :
  lstrip f s = c :: l -> f c = false.
Proof.
  induction s as [|d s IH]; simpl; [discriminate|].
  destruct (f d) eqn:Hd; [exact IH|]. intros H. injection H as -> _. exact Hd.
Qed.

Lemma lstrip_id (f : ascii -> bool) c (l : str) :
  f c = false -> lstrip f (c :: l) = c :: l.
Proof. intros H. simpl. rewrite H. reflexivity. Qed.

Lemma rstrip_snoc (f : ascii -> bool) (v : str) c :
  rstrip f (v ++ [c]) = if f c then rstrip f v else v ++ [c].
Proof.
  unfold rstrip. rewrite rev_app_distr. simpl.
  destruct (f c); [reflexivity|]. simpl. rewrite rev_involutive. reflexivity.
Qed.

(** What [rstrip] removes is a run of the stripped characters. *)
Lemma rstrip_split (f : ascii -> bool) (s : str) :
  exists tail, s = rstrip f s ++ tail /\ Forall (fun c => f c = true) tail.
Proof.
  unfold rstrip. destruct (lstrip_split f (rev s)) as (pre & E & H).
  exists (rev pre). split.
  - rewrite <- rev_app_distr, <- E, rev_involutive. reflexivity.
  - apply Forall_rev. exact H.
Qed.

(** What [rstrip] leaves does not end in a stripped character. *)
Lemma rstrip_last (f : ascii -> bool) (s v : str) c :
  rstrip f s = v ++ [c] -> f c = false.
Proof.
  unfold rstrip. intros H.
  assert (E : lstrip f (rev s) = c :: rev v).
  { rewrite <- (rev_involutive (lstrip f (rev s))), H, rev_app_distr. reflexivity. }
  eapply lstrip_head. exact E.
Qed.

Lemma rstrip_fixed (f : ascii -> bool) (s : str) :
  (forall c, In c s -> f c = false) -> rstrip f s = s.
Proof.
  intros H. destruct s as [|d s] using rev_ind; [reflexivity|].
  rewrite rstrip_snoc, H; [reflexivity|]. apply in_or_app. right. left. reflexivity.
Qed.

Lemma rstrip_incl (f : ascii -> bool) (s : str) c : In c (rstrip f s) -> In c s.
Proof.
  destruct (rstrip_split f s) as (tail & E & _). intros H.
  rewrite E. apply in_or_app. left. exact H.
Qed.

Lemma all_semicolons (tail : str) :
  Forall (fun c => is_semicolon c = true) tail ->
  tail = repeat ";"%char (List.length tail).
Proof.
  induction 1 as [|c tail Hc _ IH]; [reflexivity|].
  apply CharFacts.is_semicolon_eq in Hc. simpl. congruence.
Qed.

(** The text of line 94 does not begin with white space. *)
Lemma normalize_head (sql : str) c l :
  normalize sql = c :: l -> Char.isspace c = false.
Proof.
  unfold normalize, strip. intros H.
  destruct (rstrip_split is_semicolon (rstrip Char.isspace (lstrip Char.isspace sql)))
    as (t1 & E1 & _).
  destruct (rstrip_split Char.isspace (lstrip Char.isspace sql)) as (t2 & E2 & _).
  rewrite E1, H in E2. simpl in E2.
  eapply lstrip_head. exact E2.
Qed.

End StrFacts.

(** ** Matches when text is added after the subject *)

Module ExtendFacts.
Import re reFacts Spec.

Local Abbreviation ends_solid u :=
  (exists v c, u = v ++ [c] /\ Char.isspace c = false).

Lemma word_after_app_nonword (b x : str) :
  word_after x = false -> word_after (b ++ x) = word_after b.
Proof. destruct b; simpl; auto. Qed.

Lemma word_after_spaces (ws : str) : spaces ws -> word_after ws = false.
Proof.
  intros H. destruct ws as [|c ws]; [reflexivity|].
  inversion H; subst. simpl. apply CharFacts.space_not_word. assumption.
Qed.

Lemma split_before_spaces (ws b : str) c : forall x t,
  t ++ ws = x ++ c :: b -> spaces ws -> Char.isspace c = false ->
  exists b', t = x ++ c :: b' /\ b = b' ++ ws.
Proof.
  intros x t E Hws Hc. revert t E.
  induction x as [|e x IH]; intros [|d t] E; simpl in E.
  - subst ws. inversion Hws; subst. congruence.
  - injection E as -> E. exists t. auto.
  - subst ws. unfold spaces in Hws. rewrite Forall_forall in Hws.
    rewrite (Hws c) in Hc; [discriminate|].
    right. apply in_or_app. right. left. reflexivity.
  - injection E as -> E. destruct (IH _ E) as (b' & -> & ->).
    exists b'. auto.
Qed.

Lemma split3 (s x a u b : str) c :
  s ++ c :: x = a ++ u ++ b ->
  (exists a', a = s ++ c :: a' /\ x = a' ++ u ++ b)
  \/ In c u
  \/ (exists b', s = a ++ u ++ b' /\ b = b' ++ c :: x).
Proof.
  intros E. apply app_eq_app in E as (l & [[-> E]|[-> E]]).
  - apply app_eq_app in E as (m & [[-> E]|[-> E]]).
    + destruct m as [|d m]; simpl in E.
      * right. right. exists []. rewrite !app_nil_r. auto.
      * injection E as -> E. right. left. apply in_or_app. right. left. reflexivity.
    + right. right. exists m. auto.
  - destruct l as [|d l]; simpl in E.
    + destruct u as [|e u]; simpl in E.
      * right. right. exists []. rewrite !app_nil_r. simpl. auto.
      * injection E as -> E. right. left. left. reflexivity.
    + injection E as -> E. left. exists l. auto.
Qed.

Lemma wordish_ends_solid (u : str) : wordish u -> ends_solid u.
Proof.
  intros [Hne Hw]. destruct (exists_last Hne) as (v & c & ->).
  exists v, c. split; [reflexivity|].
  rewrite forallb_app in Hw. apply andb_true_iff in Hw as [_ Hc].
  simpl in Hc. rewrite andb_true_r in Hc.
  destruct (Char.isspace c) eqn:E; [|reflexivity].
  apply CharFacts.space_not_word in E. congruence.
Qed.

Lemma ends_solid_app (u v : str) : ends_solid v -> ends_solid (u ++ v).
Proof.
  intros (x & c & -> & Hc). exists (u ++ x), c.
  rewrite <- app_assoc. auto.
Qed.

Lemma ieq_ends_solid (u w : str) c :
  Str.ieq u (w ++ [c]) -> Char.isspace c = false -> ends_solid u.
Proof.
  intros H Hc. destruct (PatternFacts.ieq_app _ _ _ H) as (u1 & u2 & -> & _ & H2).
  unfold Str.ieq in H2. destruct u2 as [|d [|e u2]]; try discriminate.
  simpl in H2. injection H2 as H2. exists u1, d. split; [reflexivity|].
  rewrite <- CharFacts.tolower_space, H2, CharFacts.tolower_space. exact Hc.
Qed.

Section TextAfter.

Variable r : regex.

(** Adding text that begins with a character that is no identifier
    character keeps every match there was. *)
Lemma matches_at_app (p : option ascii) (l x : str) :
  word_after x = false ->
  matches_at r (p, l) = true -> matches_at r (p, l ++ x) = true.
Proof.
  intros Hx H. apply matches_at_den in H as (u & b & -> & D).
  apply matches_at_den. exists u, (b ++ x). rewrite <- app_assoc.
  rewrite word_after_app_nonword; auto.
Qed.

Lemma search_app (s x : str) :
  word_after x = false -> search r s = true -> search r (s ++ x) = true.
Proof.
  intros Hx H. apply search_den in H as (a & u & b & -> & D).
  apply search_den. exists a, u, (b ++ x). rewrite <- !app_assoc.
  rewrite word_after_app_nonword; auto.
Qed.

Section Solid.

Hypothesis solid : forall p u nw, den r p u nw -> ends_solid u.

(** Trailing white space neither adds a match nor removes one. *)
Lemma matches_at_spaces (p : option ascii) (t ws : str) :
  spaces ws -> matches_at r (p, t ++ ws) = matches_at r (p, t).
Proof.
  intros Hws. apply eq_iff_eq_true. split.
  - intros H. apply matches_at_den in H as (u & b & E & D).
    destruct (solid _ _ _ D) as (v & c & -> & Hc).
    rewrite <- app_assoc in E. simpl in E.
    destruct (split_before_spaces _ _ _ _ _ E Hws Hc) as (b' & -> & ->).
    apply matches_at_den. exists (v ++ [c]), b'. rewrite <- app_assoc.
    split; [reflexivity|].
    rewrite word_after_app_nonword in D; auto using word_after_spaces.
  - apply matches_at_app, word_after_spaces, Hws.
Qed.

Lemma search_spaces (t ws : str) :
  spaces ws -> search r (t ++ ws) = search r t.
Proof.
  intros Hws. apply eq_iff_eq_true. split.
  - intros H. apply search_den in H as (a & u & b & E & D).
    destruct (solid _ _ _ D) as (v & c & -> & Hc).
    rewrite <- app_assoc, app_assoc in E. simpl in E.
    destruct (split_before_spaces _ _ _ _ _ E Hws Hc) as (b' & -> & ->).
    apply search_den. exists a, (v ++ [c]), b'. rewrite <- !app_assoc.
    split; [reflexivity|].
    rewrite word_after_app_nonword in D; auto using word_after_spaces.
  - apply search_app, word_after_spaces, Hws.
Qed.

End Solid.

Section Wordish.

Hypothesis only_words : forall p u nw, den r p u nw -> wordish u.

(** A pattern that matches identifier characters only finds nothing new
    when text is added behind a character that is not one. *)
Lemma search_app_sep (s x : str) c :
  Char.isword c = false ->
  search r (s ++ c :: x) = true ->
  search r s = true \/ search r (c :: x) = true.
Proof.
  intros Hc H. apply search_den in H as (a & u & b & E & D).
  destruct (split3 _ _ _ _ _ _ E) as [(a' & -> & ->)|[Hin|(b' & -> & ->)]].
  - right. apply search_den. exists (c :: a'), u, b.
    split; [reflexivity|]. rewrite last_of_app in D. exact D.
  - destruct (only_words _ _ _ D) as [_ Hw].
    rewrite forallb_forall in Hw. rewrite (Hw _ Hin) in Hc. discriminate.
  - left. apply search_den. exists a, u, b'. split; [reflexivity|].
    rewrite word_after_app_nonword in D; auto.
Qed.

End Wordish.
End TextAfter.

End ExtendFacts.

(** ** The admission part of [_run] *)

Module AdmissionFacts.
Import re reFacts Spec PatternFacts StrFacts ExtendFacts.

Local Abbreviation admission_of := admission.

Import guardrailed_agent_03.SafeSQLTool.

Local Abbreviation ends_solid u :=
  (exists v c, u = v ++ [c] /\ Char.isspace c = false).

(** The two scripts have the same admission part and the same [_run]. *)
Lemma admission_same (which : script) :
  admission_of which = guardrailed_agent_03.SafeSQLTool.admission.
Proof. destruct which; reflexivity. Qed.

Lemma run_same (which : script) :
  run which = guardrailed_agent_03.SafeSQLTool._run.
Proof. destruct which; reflexivity. Qed.

(** [_run] returns the rejection text, or enters its [try] with the
    accepted text. *)
Lemma run_admission (engine : Engine) (sql : str) :
  _run engine sql =
  match admission sql with
  | Rejected why => Py.ret (RStr (message why))
  | Accepted f =>
      Py.try_except (execute_body engine f)
        (fun e => m <- Py.lift (Py.str_of e) ;; Py.ret (RStr ("ERROR: " ++ m)))
  end.
Proof.
  unfold _run, admission.
  destruct (search write_pattern _); [reflexivity|].
  destruct (Str.contains_semicolon _); [reflexivity|].
  destruct (match_ select_pattern _); [|reflexivity]. simpl negb. cbv iota.
  destruct (negb (search limit_pattern _) && negb (search aggregate_pattern _));
    reflexivity.
Qed.

Lemma accepted_inv (sql f : str) :
  admission sql = Accepted f ->
  search write_pattern (normalize sql) = false
  /\ Str.contains_semicolon (normalize sql) = false
  /\ match_ select_pattern (normalize sql) = true
  /\ f = if negb (search limit_pattern (normalize sql))
              && negb (search aggregate_pattern (normalize sql))
         then normalize sql ++ " LIMIT 200" else normalize sql.
Proof.
  unfold admission. fold (normalize sql).
  destruct (search write_pattern _); [discriminate|].
  destruct (Str.contains_semicolon _); [discriminate|].
  destruct (match_ select_pattern _); [|discriminate]. simpl negb. cbv iota.
  destruct (negb (search limit_pattern _) && negb (search aggregate_pattern _));
    intros H; injection H as <-; auto.
Qed.

Lemma accepted_intro (sql : str) :
  search write_pattern (normalize sql) = false ->
  Str.contains_semicolon (normalize sql) = false ->
  match_ select_pattern (normalize sql) = true ->
  admission sql =
  Accepted (if negb (search limit_pattern (normalize sql))
               && negb (search aggregate_pattern (normalize sql))
            then normalize sql ++ " LIMIT 200" else normalize sql).
Proof.
  intros H1 H2 H3. unfold admission. fold (normalize sql).
  rewrite H1, H2, H3. simpl negb. cbv iota.
  destruct (negb (search limit_pattern _) && negb (search aggregate_pattern _));
    reflexivity.
Qed.

(** What each pattern matches ends in a character that is not white
    space; the write pattern matches identifier characters only. *)
Lemma write_only_words p u nw : den write_pattern p u nw -> wordish u.
Proof.
  intros D. apply den_write in D as ((kw & Hin & H) & _).
  eapply ieq_wordish; eauto using write_keywords_wordish.
Qed.

Lemma write_solid p u nw : den write_pattern p u nw -> ends_solid u.
Proof. intros D. eapply wordish_ends_solid, write_only_words, D. Qed.

Lemma select_solid p u nw : den select_pattern p u nw -> ends_solid u.
Proof.
  intros D. apply den_select in D as (_ & _ & ws & k & -> & _ & Hk).
  apply ends_solid_app. apply (ieq_ends_solid k "selec" "t"); [exact Hk|reflexivity].
Qed.

Lemma limit_solid p u nw : den limit_pattern p u nw -> ends_solid u.
Proof.
  intros D. apply den_limit in D as (_ & _ & k & ws & ds & -> & _ & _ & _ & Hnd & Hds).
  do 2 apply ends_solid_app. apply wordish_ends_solid, digits_wordish; assumption.
Qed.

Lemma aggregate_solid p u nw : den aggregate_pattern p u nw -> ends_solid u.
Proof.
  intros D. apply den_aggregate in D as [_ D].
  destruct D as [D|[(_ & g & ws & y & -> & _ & _ & _ & Hy)|[D|[D|[D|D]]]]].
  2:{ do 2 apply ends_solid_app. apply (ieq_ends_solid y "b" "y"); [exact Hy|reflexivity]. }
  all: eapply ieq_ends_solid; [exact D|reflexivity].
Qed.

Lemma select_nonempty (s : str) : match_ select_pattern s = true -> s <> [].
Proof. intros H ->. vm_compute in H. discriminate. Qed.

Lemma semicolon_free (s : str) c :
  Str.contains_semicolon s = false -> In c s -> Str.is_semicolon c = false.
Proof.
  unfold Str.contains_semicolon. intros H Hin.
  destruct (Str.is_semicolon c) eqn:E; [|reflexivity].
  assert (X : existsb Str.is_semicolon s = true) by (apply existsb_exists; eauto).
  congruence.
Qed.

(** Line 94 on a text that does not begin with white space and holds no
    semicolon only removes the white space at its end. *)
Lemma normalize_kept (s : str) c l :
  s = c :: l -> Char.isspace c = false ->
  Str.contains_semicolon s = false ->
  normalize s = Str.rstrip Char.isspace s /\ Str.strip s = Str.rstrip Char.isspace s.
Proof.
  intros -> Hc Hs. unfold normalize, Str.strip. rewrite (lstrip_id _ _ _ Hc).
  split; [|reflexivity]. apply rstrip_fixed. intros d Hd.
  apply rstrip_incl in Hd. eapply semicolon_free; eauto.
Qed.

Lemma limit_suffix_snoc (s : str) :
  s ++ " LIMIT 200" = (s ++ " LIMIT 20") ++ ["0"%char].
Proof. rewrite <- app_assoc. reflexivity. Qed.

Lemma normalize_limited (s : str) c l :
  s = c :: l -> Char.isspace c = false ->
  Str.contains_semicolon s = false ->
  normalize (s ++ " LIMIT 200") = s ++ " LIMIT 200"
  /\ Str.strip (s ++ " LIMIT 200") = s ++ " LIMIT 200".
Proof.
  intros -> Hc Hs. unfold normalize, Str.strip.
  change ((c :: l) ++ " LIMIT 200") with (c :: (l ++ " LIMIT 200")).
  rewrite (lstrip_id _ _ _ Hc).
  change (c :: (l ++ " LIMIT 200")) with ((c :: l) ++ " LIMIT 200").
  rewrite limit_suffix_snoc, (rstrip_snoc Char.isspace).
  change (Char.isspace "0") with false. cbv iota.
  rewrite (rstrip_snoc Str.is_semicolon).
  change (Str.is_semicolon "0") with false. cbv iota. auto.
Qed.

(** Re-admission of a text that was accepted as it stood. *)
Lemma again_kept (s : str) c l :
  s = c :: l -> Char.isspace c = false ->
  search write_pattern s = false ->
  Str.contains_semicolon s = false ->
  match_ select_pattern s = true ->
  negb (search limit_pattern s) && negb (search aggregate_pattern s) = false ->
  admission s = Accepted (Str.strip s).
Proof.
  intros E Hc Hw Hs Hsel Hla.
  destruct (normalize_kept s c l E Hc Hs) as [N ->].
  destruct (rstrip_split Char.isspace s) as (ws & Es & Hws).
  set (t := Str.rstrip Char.isspace s) in *.
  assert (Hw' : search write_pattern t = false).
  { rewrite <- (search_spaces _ write_solid t ws Hws), <- Es. exact Hw. }
  assert (Hs' : Str.contains_semicolon t = false).
  { unfold Str.contains_semicolon in *. rewrite Es, existsb_app in Hs.
    apply orb_false_iff in Hs. tauto. }
  assert (Hsel' : match_ select_pattern t = true).
  { unfold match_. rewrite <- (matches_at_spaces _ select_solid None t ws Hws), <- Es.
    exact Hsel. }
  assert (Hla' : negb (search limit_pattern t) && negb (search aggregate_pattern t) = false).
  { rewrite <- (search_spaces _ limit_solid t ws Hws).
    rewrite <- (search_spaces _ aggregate_solid t ws Hws). rewrite <- Es. exact Hla. }
  rewrite <- N in Hw', Hs', Hsel', Hla' |- *.
  rewrite (accepted_intro s Hw' Hs' Hsel'), Hla'. reflexivity.
Qed.

(** Re-admission of a text that [LIMIT 200] was appended to. *)
Lemma again_limited (s : str) c l :
  s = c :: l -> Char.isspace c = false ->
  search write_pattern s = false ->
  Str.contains_semicolon s = false ->
  match_ select_pattern s = true ->
  admission (s ++ " LIMIT 200") = Accepted (s ++ " LIMIT 200").
Proof.
  intros E Hc Hw Hs Hsel.
  destruct (normalize_limited s c l E Hc Hs) as [N _].
  assert (Hw' : search write_pattern (s ++ " LIMIT 200") = false).
  { destruct (search write_pattern (s ++ " LIMIT 200")) eqn:X; [|reflexivity].
    apply (search_app_sep _ write_only_words s "LIMIT 200" " ") in X;
      [|reflexivity].
    destruct X as [X|X]; [congruence|]. vm_compute in X. discriminate. }
  assert (Hs' : Str.contains_semicolon (s ++ " LIMIT 200") = false).
  { unfold Str.contains_semicolon in *. rewrite existsb_app, Hs. reflexivity. }
  assert (Hsel' : match_ select_pattern (s ++ " LIMIT 200") = true).
  { apply matches_at_app; [reflexivity|exact Hsel]. }
  assert (Hl : search limit_pattern (s ++ " LIMIT 200") = true).
  { apply limit_search. exists (s ++ [" "%char]), "LIMIT", " ", "200", [].
    split; [rewrite <- app_assoc; reflexivity|].
    unfold word_at_end. rewrite last_of_snoc.
    repeat split; try discriminate; repeat constructor. }
  rewrite <- N in Hw', Hs', Hsel', Hl.
  rewrite (accepted_intro _ Hw' Hs' Hsel'), Hl, N. reflexivity.
Qed.

End AdmissionFacts.

(** ** The execution part of [_run] *)

Module ExecutionFacts.

(** The [try] block first calls [engine.connect()], and executes no
    statement but the one it was entered with. *)
Lemma execute_body_log (engine : Engine) (s : str) t o t' :
  execute_body engine s t = (o, t') ->
  exists evs, t' = t ++ Py.Connect :: evs
    /\ forall st, In (Py.Execute st) evs -> st = s.
Proof.
  unfold execute_body, Py.with_, Py.bind, connect, exec_driver_sql, fetchall,
    keys, release, Py.call, Py.ret.
  destruct (engine_connect engine) as [conn|e].
  - destruct (conn_exec_driver_sql conn s) as [result|e];
      [destruct (result_fetchall result) as [rows|e];
         [destruct (result_keys result) as [[|k ks]|e]|]|];
      destruct (conn_exit conn) as [[]|e'];
      intros H; injection H as _ <-;
      rewrite <- ?app_assoc; simpl; eexists; (split; [reflexivity|]);
      simpl; intros st X; intuition congruence.
  - intros H; injection H as _ <-. exists []. split; [reflexivity|]. intros st [].
Qed.

Lemma log_grows (t evs : list Py.event) ev : t ++ ev :: evs <> t.
Proof.
  intros H. apply (f_equal (@List.length _)) in H.
  rewrite length_app in H. simpl in H. lia.
Qed.

Local Abbreviation handler :=
  (fun e => m <- Py.lift (Py.str_of e) ;; Py.ret (RStr ("ERROR: " ++ m))).

(** The [except] clause makes no call on the engine. *)
Lemma try_log (engine : Engine) (f : str) t :
  snd (Py.try_except (execute_body engine f) handler t)
  = snd (execute_body engine f t).
Proof.
  unfold Py.try_except, Py.bind, Py.lift, Py.ret.
  destruct (execute_body engine f t) as [[d|e] t1]; [reflexivity|].
  destruct (Py.isinstance_Exception e); [|reflexivity].
  destruct (Py.str_of e); reflexivity.
Qed.

(** What [_run] makes of the way its [try] block is left. *)
Lemma try_value (engine : Engine) (f : str) t :
  fst (Py.try_except (execute_body engine f) handler t)
  = match fst (execute_body engine f t) with
    | Py.Return d => Py.Return d
    | Py.Raise e =>
        if Py.isinstance_Exception e
        then match Py.str_of e with
             | Py.Return m => Py.Return (RStr ("ERROR: " ++ m))
             | Py.Raise e' => Py.Raise e'
             end
        else Py.Raise e
    end.
Proof.
  unfold Py.try_except, Py.bind, Py.lift, Py.ret.
  destruct (execute_body engine f t) as [[d|e] t1]; [reflexivity|]. simpl.
  destruct (Py.isinstance_Exception e); [|reflexivity].
  destruct (Py.str_of e); reflexivity.
Qed.

(** The [try] block against the engine: it returns the payload when every
    call succeeds, and is left with the exception that escapes
    otherwise. *)
Lemma succeeds_returns (engine : Engine) (f : str) cols rows t :
  Spec.succeeds engine f cols rows ->
  fst (execute_body engine f t) = Py.Return (RDict cols rows).
Proof.
  intros [conn result E1 E2 E3 E4 E5].
  unfold execute_body, Py.with_, Py.bind, connect, exec_driver_sql, fetchall,
    keys, release, Py.call, Py.ret.
  rewrite E1, E2, E3, E4.
  destruct cols as [|k ks]; simpl; try rewrite E4; rewrite E5, map_id; reflexivity.
Qed.

Lemma escapes_raises (engine : Engine) (f : str) e t :
  Spec.escapes engine f e -> fst (execute_body engine f t) = Py.Raise e.
Proof.
  unfold execute_body, Py.with_, Py.bind, connect, exec_driver_sql, fetchall,
    keys, release, Py.call, Py.ret.
  intros [E1|conn E1 E5|conn E1 E5 E2|conn result E1 E5 E2 E3
         |conn result rows E1 E5 E2 E3 E4].
  - rewrite E1. reflexivity.
  - rewrite E1.
    destruct (conn_exec_driver_sql conn f) as [result|e1];
      [destruct (result_fetchall result) as [rows|e1];
         [destruct (result_keys result) as [[|k ks]|e1]|]|];
      rewrite E5; reflexivity.
  - rewrite E1, E2, E5. reflexivity.
  - rewrite E1, E2, E3, E5. reflexivity.
  - rewrite E1, E2, E3, E4, E5. reflexivity.
Qed.

Lemma succeeds_or_escapes (engine : Engine) (f : str) :
  (exists cols rows, Spec.succeeds engine f cols rows)
  \/ (exists e, Spec.escapes engine f e).
Proof.
  destruct (engine_connect engine) as [conn|e] eqn:E1;
    [|right; exists e; apply Spec.connect_raises; exact E1].
  destruct (conn_exit conn) as [[]|e] eqn:E5;
    [|right; exists e; eapply Spec.release_raises; eauto].
  destruct (conn_exec_driver_sql conn f) as [result|e] eqn:E2;
    [|right; exists e; eapply Spec.execute_raises; eauto].
  destruct (result_fetchall result) as [rows|e] eqn:E3;
    [|right; exists e; eapply Spec.fetchall_raises; eauto].
  destruct (result_keys result) as [cols|e] eqn:E4;
    [|right; exists e; eapply Spec.keys_raises; eauto].
  left. exists cols, rows. eapply Spec.all_succeed; eauto.
Qed.

End ExecutionFacts.

(** * The claims of the specification *)

Import re reFacts PatternFacts StrFacts ExtendFacts AdmissionFacts ExecutionFacts.

Local Abbreviation write_pattern := guardrailed_agent_03.SafeSQLTool.write_pattern.
Local Abbreviation select_pattern := guardrailed_agent_03.SafeSQLTool.select_pattern.
Local Abbreviation limit_pattern := guardrailed_agent_03.SafeSQLTool.limit_pattern.
Local Abbreviation aggregate_pattern := guardrailed_agent_03.SafeSQLTool.aggregate_pattern.

Lemma not_write (s : str) :
  ~ Spec.contains_write_keyword s -> search write_pattern s = false.
Proof. intros H. apply not_true_iff_false. rewrite write_search. exact H. Qed.

Lemma not_terminator (s : str) :
  ~ Spec.contains_terminator s -> Str.contains_semicolon s = false.
Proof. intros H. apply not_true_iff_false. rewrite semicolon_search. exact H. Qed.

Lemma not_select (s : str) :
  ~ Spec.begins_with_select s -> match_ select_pattern s = false.
Proof. intros H. apply not_true_iff_false. rewrite select_match. exact H. Qed.

Lemma not_limit (s : str) :
  ~ Spec.contains_limit s -> search limit_pattern s = false.
Proof. intros H. apply not_true_iff_false. rewrite limit_search. exact H. Qed.

Lemma not_aggregate (s : str) :
  ~ Spec.contains_aggregate s -> search aggregate_pattern s = false.
Proof. intros H. apply not_true_iff_false. rewrite aggregate_search. exact H. Qed.

Lemma admission_unfold (which : script) (sql : str) :
  admission which sql =
  if search write_pattern (normalize sql) then Rejected WriteOperationForbidden
  else if Str.contains_semicolon (normalize sql)
  then Rejected MultipleStatementsForbidden
  else if negb (match_ select_pattern (normalize sql))
  then Rejected OnlySelectAllowed
  else if negb (search limit_pattern (normalize sql))
          && negb (search aggregate_pattern (normalize sql))
  then Accepted (normalize sql ++ " LIMIT 200")
  else Accepted (normalize sql).
Proof. destruct which; reflexivity. Qed.

Lemma run_rejected (which : script) (engine : Engine) (sql : str) t why :
  admission which sql = Rejected why ->
  run which engine sql t = (Py.Return (RStr (message why)), t).
Proof.
  rewrite admission_same, run_same, run_admission. intros ->. reflexivity.
Qed.

(** C1: a text whose normalised form holds one of INSERT, UPDATE, DELETE,
    DROP, TRUNCATE, ALTER, CREATE, REPLACE as a whole word, up to case, is
    rejected as a write operation, and [_run] returns
    "ERROR: write operations are not allowed."; only a whole-word
    occurrence brings this rejection, so a column named [updated_at] does
    not. *)
Theorem write_keyword_rejected
    (which : script) (engine : Engine) (sql : str) (t : list Py.event) :
  (Spec.contains_write_keyword (normalize sql) <->
   admission which sql = Rejected WriteOperationForbidden)
  /\ (Spec.contains_write_keyword (normalize sql) ->
      run which engine sql t =
      (Py.Return (RStr "ERROR: write operations are not allowed."), t))
  /\ ~ Spec.contains_write_keyword (normalize "SELECT updated_at FROM orders")
  /\ admission which "SELECT updated_at FROM orders"
     = Accepted "SELECT updated_at FROM orders LIMIT 200".
Proof.
  assert (A : Spec.contains_write_keyword (normalize sql) <->
              admission which sql = Rejected WriteOperationForbidden).
  { rewrite <- write_search, admission_unfold.
    destruct (search write_pattern (normalize sql)); [tauto|].
    destruct (Str.contains_semicolon _); [split; discriminate|].
    destruct (negb (match_ select_pattern _)); [split; discriminate|].
    destruct (negb _ && negb _); split; discriminate. }
  split; [exact A|]. split.
  - intros H. apply A in H. apply (run_rejected _ _ _ _ _ H).
  - split.
    + intros H. apply write_search in H. vm_compute in H. discriminate.
    + destruct which; vm_compute; reflexivity.
Qed.

Lemma write_keyword_rejected_witness :
  Spec.contains_write_keyword (normalize "DROP TABLE orders")
  /\ run guardrailed_agent {| engine_connect := Py.Raise (Py.Exception "no database") |}
         "DROP TABLE orders" []
     = (Py.Return (RStr "ERROR: write operations are not allowed."), []).
Proof.
  assert (H : Spec.contains_write_keyword (normalize "DROP TABLE orders")).
  { exists ("DROP" : str). split; [simpl; tauto|].
    exists [], ("DROP" : str), (" TABLE orders" : str).
    repeat split; reflexivity. }
  split; [exact H|].
  exact (proj1 (proj2 (write_keyword_rejected guardrailed_agent _ _ [])) H).
Defined.

(** C2, as the code has it: line 94 removes every trailing semicolon of
    the trimmed text, not one only, so that the normalised text never ends
    in a semicolon; when no write keyword is found, a semicolon left in the
    normalised text brings the rejection for multiple statements; and
    "SELECT 1;;" is normalised to "SELECT 1" and accepted. *)
Theorem trailing_terminators_stripped (which : script) (sql : str) :
  (exists n, Str.strip sql = normalize sql ++ repeat ";"%char n)
  /\ (forall v, normalize sql <> v ++ [";"%char])
  /\ (~ Spec.contains_write_keyword (normalize sql) ->
      Spec.contains_terminator (normalize sql) ->
      admission which sql = Rejected MultipleStatementsForbidden)
  /\ normalize "SELECT 1;;" = "SELECT 1"
  /\ admission which "SELECT 1;;" = Accepted "SELECT 1 LIMIT 200".
Proof.
  split; [|split; [|split; [|split]]].
  - destruct (rstrip_split Str.is_semicolon (Str.strip sql)) as (tail & E & H).
    exists (List.length tail). rewrite <- (all_semicolons tail H). exact E.
  - intros v E. apply rstrip_last in E. discriminate.
  - intros Hw Ht. rewrite admission_unfold, (not_write _ Hw).
    apply semicolon_search in Ht. rewrite Ht. reflexivity.
  - vm_compute. reflexivity.
  - destruct which; vm_compute; reflexivity.
Qed.

Lemma trailing_terminators_stripped_witness :
  ~ Spec.contains_write_keyword (normalize "SELECT 1; SELECT 2")
  /\ Spec.contains_terminator (normalize "SELECT 1; SELECT 2")
  /\ admission complex_queries "SELECT 1; SELECT 2"
     = Rejected MultipleStatementsForbidden.
Proof.
  assert (Hw : ~ Spec.contains_write_keyword (normalize "SELECT 1; SELECT 2")).
  { intros H. apply write_search in H. vm_compute in H. discriminate. }
  assert (Ht : Spec.contains_terminator (normalize "SELECT 1; SELECT 2")).
  { apply semicolon_search. vm_compute. reflexivity. }
  split; [exact Hw|]. split; [exact Ht|].
  exact (proj1 (proj2 (proj2
    (trailing_terminators_stripped complex_queries "SELECT 1; SELECT 2"))) Hw Ht).
Defined.

(** C2, as the specification states it, fails: "SELECT 1;;" is not
    rejected for multiple statements, since both semicolons are removed. *)
Lemma double_terminator_not_rejected :
  admission guardrailed_agent "SELECT 1;;" <> Rejected MultipleStatementsForbidden
  /\ admission complex_queries "SELECT 1;;" <> Rejected MultipleStatementsForbidden
  /\ admission guardrailed_agent "SELECT 1;;" = Accepted "SELECT 1 LIMIT 200"
  /\ Str.rstrip Str.is_semicolon (Str.strip "SELECT 1;;") <> "SELECT 1;".
Proof.
  repeat split; vm_compute; try discriminate; reflexivity.
Qed.

(** C3: a text that passes the write-keyword and the multiple-statement
    checks, and whose normalised form does not begin with the keyword
    SELECT (white space before it and case set aside), is rejected with
    "ERROR: only SELECT statements are allowed.". *)
Theorem non_select_rejected
    (which : script) (engine : Engine) (sql : str) (t : list Py.event) :
  ~ Spec.contains_write_keyword (normalize sql) ->
  ~ Spec.contains_terminator (normalize sql) ->
  ~ Spec.begins_with_select (normalize sql) ->
  admission which sql = Rejected OnlySelectAllowed
  /\ run which engine sql t =
     (Py.Return (RStr "ERROR: only SELECT statements are allowed."), t).
Proof.
  intros Hw Ht Hs.
  assert (A : admission which sql = Rejected OnlySelectAllowed).
  { rewrite admission_unfold, (not_write _ Hw), (not_terminator _ Ht),
      (not_select _ Hs). reflexivity. }
  split; [exact A|]. apply (run_rejected _ _ _ _ _ A).
Qed.

Lemma non_select_rejected_witness :
  admission guardrailed_agent "WITH x AS (SELECT 1) SELECT * FROM x"
  = Rejected OnlySelectAllowed.
Proof.
  refine (proj1 (non_select_rejected guardrailed_agent
            {| engine_connect := Py.Raise (Py.Exception "no database") |}
            "WITH x AS (SELECT 1) SELECT * FROM x" [] _ _ _)).
  - intros H. apply write_search in H. vm_compute in H. discriminate.
  - intros H. apply semicolon_search in H. vm_compute in H. discriminate.
  - intros H. apply select_match in H. vm_compute in H. discriminate.
Defined.

Lemma limit_found_after_append (s : str) :
  search limit_pattern (s ++ " LIMIT 200") = true.
Proof.
  apply limit_search. exists (s ++ [" "%char]), "LIMIT", " ", "200", [].
  split; [rewrite <- app_assoc; reflexivity|].
  unfold Spec.word_at_end. rewrite last_of_snoc.
  repeat split; try discriminate; repeat constructor.
Qed.

(** C4: a text that passes the checks 2 to 4 is accepted; when its
    normalised form holds neither a clause LIMIT <integer> nor one of
    COUNT(, GROUP BY, SUM(, AVG(, MAX(, MIN(, up to case, the final text is
    the normalised text with " LIMIT 200" appended, once; when it holds
    one of them, the final text is the normalised text itself. *)
Theorem bounding_rewrite (which : script) (sql : str) :
  ~ Spec.contains_write_keyword (normalize sql) ->
  ~ Spec.contains_terminator (normalize sql) ->
  Spec.begins_with_select (normalize sql) ->
  (~ Spec.contains_limit (normalize sql) ->
   ~ Spec.contains_aggregate (normalize sql) ->
   admission which sql = Accepted (normalize sql ++ " LIMIT 200"))
  /\ (Spec.contains_limit (normalize sql)
      \/ Spec.contains_aggregate (normalize sql) ->
      admission which sql = Accepted (normalize sql)).
Proof.
  intros Hw Ht Hs. apply select_match in Hs.
  rewrite admission_unfold, (not_write _ Hw), (not_terminator _ Ht), Hs.
  simpl negb. cbv iota. split.
  - intros Hl Ha. rewrite (not_limit _ Hl), (not_aggregate _ Ha). reflexivity.
  - intros [Hl|Ha].
    + apply limit_search in Hl. rewrite Hl. reflexivity.
    + apply aggregate_search in Ha. rewrite Ha, andb_false_r. reflexivity.
Qed.

Lemma bounding_rewrite_witness :
  admission guardrailed_agent "SELECT id FROM customers"
  = Accepted "SELECT id FROM customers LIMIT 200"
  /\ admission guardrailed_agent "SELECT count(*) FROM orders"
     = Accepted "SELECT count(*) FROM orders".
Proof.
  split.
  - refine (proj1 (bounding_rewrite guardrailed_agent
                     "SELECT id FROM customers" _ _ _) _ _).
    + intros H. apply write_search in H. vm_compute in H. discriminate.
    + intros H. apply semicolon_search in H. vm_compute in H. discriminate.
    + apply select_match. vm_compute. reflexivity.
    + intros H. apply limit_search in H. vm_compute in H. discriminate.
    + intros H. apply aggregate_search in H. vm_compute in H. discriminate.
  - refine (proj2 (bounding_rewrite guardrailed_agent
                     "SELECT count(*) FROM orders" _ _ _) _).
    + intros H. apply write_search in H. vm_compute in H. discriminate.
    + intros H. apply semicolon_search in H. vm_compute in H. discriminate.
    + apply select_match. vm_compute. reflexivity.
    + right. apply aggregate_search. vm_compute. reflexivity.
Defined.

(** C5, as the code has it: a text that was accepted is accepted again,
    and the text it is accepted as is the first one with the white space
    at its end removed; this is the first text itself whenever that does
    not end in white space, as is the case when " LIMIT 200" was appended.
    " LIMIT 200" is never appended a second time. *)
Theorem readmission (which : script) (sql f : str) :
  admission which sql = Accepted f ->
  admission which f = Accepted (Str.strip f)
  /\ (exists ws, f = Str.strip f ++ ws /\ Spec.spaces ws)
  /\ (f = normalize sql ++ " LIMIT 200" -> Str.strip f = f)
  /\ ((forall v c, f = v ++ [c] -> Char.isspace c = false) -> Str.strip f = f).
Proof.
  rewrite !admission_same. intros H.
  apply accepted_inv in H as (Hw & Hs & Hsel & Hf).
  pose proof (select_nonempty _ Hsel) as Hne.
  destruct (normalize sql) as [|c l] eqn:E; [congruence|].
  pose proof (normalize_head _ _ _ E) as Hc.
  destruct (normalize_limited (c :: l) c l eq_refl Hc Hs) as [_ SL].
  destruct (negb (search limit_pattern (c :: l))
            && negb (search aggregate_pattern (c :: l))) eqn:B; subst f.
  - rewrite SL. split; [|split; [|split]]; auto.
    + apply (again_limited _ c l); auto.
    + exists []. rewrite app_nil_r. split; [reflexivity|constructor].
  - destruct (normalize_kept (c :: l) c l eq_refl Hc Hs) as [_ SK].
    split; [|split; [|split]].
    + apply (again_kept _ c l); auto.
    + rewrite SK. destruct (rstrip_split Char.isspace (c :: l)) as (ws & Ews & Hws).
      exists ws. auto.
    + intros X. apply (f_equal (@List.length _)) in X.
      rewrite length_app in X. simpl in X. lia.
    + intros X. rewrite SK.
      destruct (@exists_last _ (c :: l)) as (v & d & Ev); [discriminate|].
      rewrite Ev, rstrip_snoc, (X _ _ Ev). reflexivity.
Qed.

Lemma readmission_witness :
  admission guardrailed_agent "SELECT id FROM customers LIMIT 200"
  = Accepted "SELECT id FROM customers LIMIT 200".
Proof.
  assert (H : admission guardrailed_agent "SELECT id FROM customers"
              = Accepted "SELECT id FROM customers LIMIT 200")
    by (vm_compute; reflexivity).
  exact (proj1 (readmission guardrailed_agent _ _ H)).
Defined.

(** C5, as the specification states it, fails: "SELECT 1 LIMIT 5 ;" is
    accepted as "SELECT 1 LIMIT 5 ", with a space at its end, and that text
    is accepted as "SELECT 1 LIMIT 5", another text. *)
Lemma readmission_changes_text :
  admission guardrailed_agent "SELECT 1 LIMIT 5 ;" = Accepted "SELECT 1 LIMIT 5 "
  /\ admission guardrailed_agent "SELECT 1 LIMIT 5 " = Accepted "SELECT 1 LIMIT 5"
  /\ admission guardrailed_agent "SELECT 1 LIMIT 5 " <> Accepted "SELECT 1 LIMIT 5 "
  /\ admission complex_queries "SELECT 1 LIMIT 5 ;" = Accepted "SELECT 1 LIMIT 5 "
  /\ admission complex_queries "SELECT 1 LIMIT 5 " <> Accepted "SELECT 1 LIMIT 5 ".
Proof.
  repeat split; vm_compute; try discriminate; reflexivity.
Qed.

(** C6: the rules are tried in the order write keyword, multiple
    statements, SELECT prefix, and the first that matches gives the
    verdict: a text is rejected for a reason exactly when the rule of that
    reason matches and no earlier rule does, and it is accepted exactly
    when no rule matches.  "DELETE FROM orders WHERE id=1" matches the
    write-keyword rule and the SELECT-prefix rule, and is rejected as a
    write operation. *)
Theorem first_rule_wins (which : script) (sql : str) :
  (forall why,
     admission which sql = Rejected why <->
     Spec.fires why (normalize sql)
     /\ forall r, Spec.earlier r why -> ~ Spec.fires r (normalize sql))
  /\ ((exists f, admission which sql = Accepted f) <->
      forall why, ~ Spec.fires why (normalize sql))
  /\ (Spec.fires WriteOperationForbidden (normalize "DELETE FROM orders WHERE id=1")
      /\ Spec.fires OnlySelectAllowed (normalize "DELETE FROM orders WHERE id=1")
      /\ admission which "DELETE FROM orders WHERE id=1"
         = Rejected WriteOperationForbidden).
Proof.
  pose proof (write_search (normalize sql)) as W.
  pose proof (semicolon_search (normalize sql)) as T.
  pose proof (select_match (normalize sql)) as S.
  split; [|split].
  - intros why. rewrite admission_unfold.
    destruct (search write_pattern (normalize sql)).
    { split.
      - intros H. injection H as <-. split; [apply W; reflexivity|].
        intros r Hr. destruct r; unfold Spec.earlier in Hr; simpl in Hr; lia.
      - intros [Hf He]. destruct why; [reflexivity| |].
        + exfalso. apply (He WriteOperationForbidden).
          * unfold Spec.earlier. simpl. lia.
          * apply W. reflexivity.
        + exfalso. apply (He WriteOperationForbidden).
          * unfold Spec.earlier. simpl. lia.
          * apply W. reflexivity. }
    destruct (Str.contains_semicolon (normalize sql)).
    { split.
      - intros H. injection H as <-. split; [apply T; reflexivity|].
        intros r Hr. destruct r; unfold Spec.earlier in Hr; simpl in Hr; try lia.
        simpl. intros X. apply W in X. discriminate.
      - intros [Hf He]. destruct why; simpl in Hf.
        + apply W in Hf. discriminate.
        + reflexivity.
        + exfalso. apply (He MultipleStatementsForbidden).
          * unfold Spec.earlier. simpl. lia.
          * apply T. reflexivity. }
    destruct (match_ select_pattern (normalize sql)); simpl negb; cbv iota.
    { assert (X : forall v, (if negb (search limit_pattern (normalize sql))
                                && negb (search aggregate_pattern (normalize sql))
                             then Accepted (normalize sql ++ " LIMIT 200")
                             else Accepted (normalize sql)) = Rejected v -> False).
      { intros v. destruct (negb _ && negb _); discriminate. }
      split; [intros H; destruct (X _ H)|].
      intros [Hf _]. destruct why; simpl in Hf.
      - apply W in Hf. discriminate.
      - apply T in Hf. discriminate.
      - exfalso. apply Hf, S. reflexivity. }
    split.
    + intros H. injection H as <-. split.
      * simpl. intros X. apply S in X. discriminate.
      * intros r Hr. destruct r; unfold Spec.earlier in Hr; simpl in Hr; try lia;
          simpl; intros X; [apply W in X|apply T in X]; discriminate.
    + intros [Hf _]. destruct why; simpl in Hf.
      * apply W in Hf. discriminate.
      * apply T in Hf. discriminate.
      * reflexivity.
  - rewrite admission_unfold. split.
    + intros [f H] why.
      destruct (search write_pattern (normalize sql)); [discriminate|].
      destruct (Str.contains_semicolon (normalize sql)); [discriminate|].
      destruct (match_ select_pattern (normalize sql)); [|discriminate].
      destruct why; simpl; intros X.
      * apply W in X. discriminate.
      * apply T in X. discriminate.
      * apply X, S. reflexivity.
    + intros H.
      destruct (search write_pattern (normalize sql)).
      { destruct (H WriteOperationForbidden). apply W. reflexivity. }
      destruct (Str.contains_semicolon (normalize sql)).
      { destruct (H MultipleStatementsForbidden). apply T. reflexivity. }
      destruct (match_ select_pattern (normalize sql)).
      * simpl negb. cbv iota. destruct (negb _ && negb _); eauto.
      * destruct (H OnlySelectAllowed). simpl. intros X. apply S in X. discriminate.
  - split; [|split].
    + apply write_search. vm_compute. reflexivity.
    + simpl. intros X. apply select_match in X. vm_compute in X. discriminate.
    + destruct which; vm_compute; reflexivity.
Qed.

Lemma first_rule_wins_witness :
  admission guardrailed_agent "DROP TABLE a; DROP TABLE b"
  = Rejected WriteOperationForbidden.
Proof.
  apply (proj1 (first_rule_wins guardrailed_agent "DROP TABLE a; DROP TABLE b")).
  split.
  - apply write_search. vm_compute. reflexivity.
  - intros r Hr. destruct r; unfold Spec.earlier in Hr; simpl in Hr; lia.
Defined.

(** C7, as the code has it: the admission part gives a verdict for every
    text, and [_run] returns rather than raises as far as [except
    Exception] reaches.  A rejected text gives its message.  For an
    accepted text the execution either succeeds, and [_run] returns the
    payload of columns and rows, or is left with an exception [e]: when
    [e] is an instance of [Exception] whose text can be formed, [_run]
    returns "ERROR: " followed by that text; when [e] is no instance of
    [Exception], or forming its text raises, the exception leaves [_run].
    So [_run] never raises provided every exception of the driver is an
    instance of [Exception] with a text. *)
Theorem run_returns_or_propagates
    (which : script) (engine : Engine) (sql : str) (t : list Py.event) :
  (forall why, admission which sql = Rejected why ->
     fst (run which engine sql t) = Py.Return (RStr (message why)))
  /\ (forall f, admission which sql = Accepted f ->
      ((exists cols rows, Spec.succeeds engine f cols rows)
       \/ (exists e, Spec.escapes engine f e))
      /\ (forall cols rows, Spec.succeeds engine f cols rows ->
          fst (run which engine sql t) = Py.Return (RDict cols rows))
      /\ (forall e m, Spec.escapes engine f e ->
          Py.isinstance_Exception e = true -> Py.str_of e = Py.Return m ->
          fst (run which engine sql t) = Py.Return (RStr ("ERROR: " ++ m)))
      /\ (forall e, Spec.escapes engine f e ->
          Py.isinstance_Exception e = false ->
          fst (run which engine sql t) = Py.Raise e)
      /\ (forall e e', Spec.escapes engine f e ->
          Py.isinstance_Exception e = true -> Py.str_of e = Py.Raise e' ->
          fst (run which engine sql t) = Py.Raise e')
      /\ ((forall e, Spec.escapes engine f e ->
             Py.isinstance_Exception e = true
             /\ exists m, Py.str_of e = Py.Return m) ->
          exists v, fst (run which engine sql t) = Py.Return v)).
Proof.
  rewrite run_same, admission_same, run_admission. split.
  - intros why ->. reflexivity.
  - intros f ->. rewrite try_value.
    split; [apply succeeds_or_escapes|].
    split; [|split; [|split; [|split]]].
    + intros cols rows S. rewrite (succeeds_returns _ _ _ _ t S). reflexivity.
    + intros e m X Hi Hs. rewrite (escapes_raises _ _ _ t X), Hi, Hs. reflexivity.
    + intros e X Hi. rewrite (escapes_raises _ _ _ t X), Hi. reflexivity.
    + intros e e' X Hi Hs. rewrite (escapes_raises _ _ _ t X), Hi, Hs. reflexivity.
    + intros H. destruct (succeeds_or_escapes engine f) as [(cols & rows & S)|(e & X)].
      * rewrite (succeeds_returns _ _ _ _ t S). eauto.
      * destruct (H e X) as (Hi & m & Hs).
        rewrite (escapes_raises _ _ _ t X), Hi, Hs. eauto.
Qed.

Lemma run_returns_or_propagates_witness :
  fst (run guardrailed_agent
         {| engine_connect := Py.Return
              {| conn_exec_driver_sql := fun _ =>
                   Py.Raise (Py.Exception "no such column: nickname");
                 conn_exit := Py.Return tt |} |}
         "SELECT nickname FROM customers" [])
  = Py.Return (RStr "ERROR: no such column: nickname").
Proof.
  refine (proj1 (proj2 (proj2 (proj2 (run_returns_or_propagates guardrailed_agent _
            "SELECT nickname FROM customers" [])
            "SELECT nickname FROM customers LIMIT 200" _)))
            (Py.Exception "no such column: nickname") _ _ _ _).
  - vm_compute. reflexivity.
  - eapply Spec.execute_raises; reflexivity.
  - reflexivity.
  - reflexivity.
Defined.

(** C7, as the specification states it, fails: when a call on the driver
    raises [KeyboardInterrupt], which is no instance of [Exception], the
    [except] clause does not catch it and [_run] ends by raising it. *)
Lemma keyboard_interrupt_propagates :
  run guardrailed_agent
    {| engine_connect := Py.Return
         {| conn_exec_driver_sql := fun _ => Py.Raise Py.KeyboardInterrupt;
            conn_exit := Py.Return tt |} |}
    "SELECT id FROM customers" []
  = (Py.Raise Py.KeyboardInterrupt,
     [Py.Connect; Py.Execute "SELECT id FROM customers LIMIT 200"; Py.Release])
  /\ ~ (exists v t',
        run complex_queries
          {| engine_connect := Py.Return
               {| conn_exec_driver_sql := fun _ => Py.Raise Py.KeyboardInterrupt;
                  conn_exit := Py.Return tt |} |}
          "SELECT id FROM customers" []
        = (Py.Return v, t')).
Proof.
  split; [vm_compute; reflexivity|].
  intros (v & t' & H). vm_compute in H. discriminate.
Qed.

(** C8: a rejected text never reaches execution: [_run] returns the
    rejection message and makes no call on the engine.  When [_run] calls
    the engine or returns a payload, the text was accepted, the first call
    is [engine.connect()], and the only statement executed is the accepted
    final text. *)
Theorem rejected_never_executes
    (which : script) (engine : Engine) (sql : str) (t : list Py.event) :
  (forall why, admission which sql = Rejected why ->
     run which engine sql t = (Py.Return (RStr (message why)), t))
  /\ (forall o t', run which engine sql t = (o, t') -> t' <> t ->
      exists f evs, admission which sql = Accepted f
        /\ t' = t ++ Py.Connect :: evs
        /\ forall st, In (Py.Execute st) evs -> st = f)
  /\ (forall cols rows t',
      run which engine sql t = (Py.Return (RDict cols rows), t') ->
      exists f, admission which sql = Accepted f /\ t' <> t).
Proof.
  split; [|split].
  - intros why. apply run_rejected.
  - intros o t'. rewrite run_same, admission_same, run_admission.
    destruct (guardrailed_agent_03.SafeSQLTool.admission sql) as [f|why].
    + intros H _. apply (f_equal snd) in H. rewrite try_log in H. simpl in H.
      destruct (execute_body engine f t) as [o1 t1] eqn:E. simpl in H. subst t1.
      destruct (execute_body_log _ _ _ _ _ E) as (evs & -> & Hev). eauto.
    + intros H Hne. injection H as _ <-. congruence.
  - intros cols rows t'. rewrite run_same, admission_same, run_admission.
    destruct (guardrailed_agent_03.SafeSQLTool.admission sql) as [f|why].
    + intros H. exists f. split; [reflexivity|].
      apply (f_equal snd) in H. rewrite try_log in H. simpl in H.
      destruct (execute_body engine f t) as [o1 t1] eqn:E. simpl in H. subst t1.
      destruct (execute_body_log _ _ _ _ _ E) as (evs & -> & Hev). apply log_grows.
    + intros H. discriminate.
Qed.

Lemma rejected_never_executes_witness :
  run guardrailed_agent {| engine_connect := Py.Raise (Py.Exception "no database") |}
      "UPDATE orders SET status='x'" []
  = (Py.Return (RStr "ERROR: write operations are not allowed."), []).
Proof.
  apply (proj1 (rejected_never_executes guardrailed_agent _
                  "UPDATE orders SET status='x'" []) WriteOperationForbidden).
  vm_compute. reflexivity.
Defined.

(** C9: the two scripts compute the same function: the same verdict and
    final text, the same value returned and the same calls on the engine,
    for every engine and every text. *)
Theorem scripts_agree (engine : Engine) (sql : str) (t : list Py.event) :
  guardrailed_agent_03.SafeSQLTool._run engine sql t
  = complex_queries_04.SafeSQLTool._run engine sql t
  /\ guardrailed_agent_03.SafeSQLTool.admission sql
     = complex_queries_04.SafeSQLTool.admission sql
  /\ run guardrailed_agent engine sql t = run complex_queries engine sql t
  /\ admission guardrailed_agent sql = admission complex_queries sql.
Proof. repeat split; reflexivity. Qed.

(** C10: the final text of every accepted verdict holds a clause
    LIMIT <integer> or one of the constructs count(, group by, sum(, avg(,
    max(, min(. *)
Theorem accepted_is_bounded (which : script) (sql f : str) :
  admission which sql = Accepted f ->
  Spec.contains_limit f \/ Spec.contains_aggregate f.
Proof.
  rewrite admission_same. intros H.
  apply accepted_inv in H as (_ & _ & _ & ->).
  destruct (search limit_pattern (normalize sql)) eqn:L.
  - left. apply limit_search. exact L.
  - destruct (search aggregate_pattern (normalize sql)) eqn:A.
    + right. apply aggregate_search. exact A.
    + left. apply limit_search. simpl. apply limit_found_after_append.
Qed.

Lemma accepted_is_bounded_witness :
  Spec.contains_limit "SELECT id FROM customers LIMIT 200"
  \/ Spec.contains_aggregate "SELECT id FROM customers LIMIT 200".
Proof.
  apply (accepted_is_bounded guardrailed_agent "SELECT id FROM customers").
  vm_compute. reflexivity.
Defined.

(** * Further properties of [_run] *)

(** ** More on stripping *)

Module StripFacts.
Import Str StrFacts.

Lemma lstrip_all (f : ascii -> bool) (l : str) :
  Forall (fun c => f c = true) l -> lstrip f l = [].
Proof. induction 1 as [|c l Hc _ IH]; simpl; [reflexivity|]. rewrite Hc. exact IH. Qed.

Lemma rstrip_all (f : ascii -> bool) (l : str) :
  Forall (fun c => f c = true) l -> rstrip f l = [].
Proof.
  intros H. unfold rstrip. rewrite lstrip_all; [reflexivity|].
  apply Forall_rev. exact H.
Qed.

Lemma lstrip_app_drop (f : ascii -> bool) (ws x : str) :
  Forall (fun c => f c = true) ws -> lstrip f (ws ++ x) = lstrip f x.
Proof. induction 1 as [|c l Hc _ IH]; simpl; [reflexivity|]. rewrite Hc. exact IH. Qed.

Lemma rstrip_app_drop (f : ascii -> bool) (x ws : str) :
  Forall (fun c => f c = true) ws -> rstrip f (x ++ ws) = rstrip f x.
Proof.
  intros H. unfold rstrip. rewrite rev_app_distr, lstrip_app_drop; [reflexivity|].
  apply Forall_rev. exact H.
Qed.

(** A character that is not stripped shields what is behind it. *)
Lemma lstrip_keeps (f : ascii -> bool) (a : str) d (r : str) :
  f d = false -> lstrip f (a ++ d :: r) = lstrip f a ++ d :: r.
Proof.
  intros Hd. induction a as [|c a IH]; simpl.
  - rewrite Hd. reflexivity.
  - destruct (f c); [exact IH|reflexivity].
Qed.

Lemma rstrip_keeps (f : ascii -> bool) (l : str) d (r : str) :
  f d = false -> rstrip f (l ++ d :: r) = l ++ d :: rstrip f r.
Proof.
  intros Hd. unfold rstrip. rewrite rev_app_distr. simpl.
  rewrite <- app_assoc. simpl. rewrite (lstrip_keeps f _ d _ Hd).
  rewrite rev_app_distr. simpl. rewrite rev_involutive, <- app_assoc. reflexivity.
Qed.

Lemma strip_pad (ws1 s ws2 : str) :
  Spec.spaces ws1 -> Spec.spaces ws2 -> strip (ws1 ++ s ++ ws2) = strip s.
Proof.
  intros H1 H2. unfold strip. rewrite (lstrip_app_drop _ _ _ H1). clear H1.
  induction s as [|c s IH]; simpl.
  - rewrite (lstrip_all _ _ H2). reflexivity.
  - destruct (Char.isspace c); [exact IH|].
    change (c :: s ++ ws2) with ((c :: s) ++ ws2).
    apply rstrip_app_drop. exact H2.
Qed.

(** Line 94 keeps a run of the text: what it removes is white space in
    front, and white space and semicolons behind. *)
Lemma normalize_split (sql : str) :
  exists pre post,
    sql = pre ++ normalize sql ++ post
    /\ Spec.spaces pre
    /\ Forall (fun c => Char.isspace c = true \/ is_semicolon c = true) post.
Proof.
  unfold normalize, strip.
  destruct (lstrip_split Char.isspace sql) as (pre & E0 & Hpre).
  destruct (rstrip_split Char.isspace (lstrip Char.isspace sql)) as (t2 & E2 & H2).
  destruct (rstrip_split is_semicolon (rstrip Char.isspace (lstrip Char.isspace sql)))
    as (t1 & E1 & H1).
  exists pre, (t1 ++ t2). split; [|split].
  - rewrite app_assoc with (n := t2), <- E1, <- E2. exact E0.
  - exact Hpre.
  - apply Forall_app. split.
    + eapply Forall_impl; [|exact H1]. simpl. auto.
    + eapply Forall_impl; [|exact H2]. simpl. auto.
Qed.

(** A semicolon with text behind it stays in the text of line 94. *)
Lemma normalize_keeps_semicolon (a b : str) c :
  In c b -> Char.isspace c = false -> is_semicolon c = false ->
  In ";"%char (normalize (a ++ ";"%char :: b)).
Proof.
  intros Hin Hs Hc. apply in_split in Hin as (b1 & b2 & ->).
  unfold normalize, strip.
  rewrite (lstrip_keeps Char.isspace a ";" _ eq_refl).
  replace (lstrip Char.isspace a ++ ";"%char :: b1 ++ c :: b2)
    with ((lstrip Char.isspace a ++ ";"%char :: b1) ++ c :: b2)
    by (rewrite <- app_assoc; reflexivity).
  rewrite (rstrip_keeps Char.isspace _ c _ Hs).
  rewrite (rstrip_keeps is_semicolon _ c _ Hc).
  rewrite <- app_assoc. apply in_or_app. right. left. reflexivity.
Qed.

End StripFacts.

Import StripFacts.

(** ** Edge cases of the admission part *)

(** X1: a text that is empty, or white space, or whose trimmed form is
    nothing but semicolons, is rejected with
    "ERROR: only SELECT statements are allowed." and no call is made on
    the engine. *)
Theorem blank_text_rejected
    (which : script) (engine : Engine) (sql : str) (t : list Py.event) :
  Forall (fun c => Str.is_semicolon c = true) (Str.strip sql) ->
  normalize sql = []
  /\ admission which sql = Rejected OnlySelectAllowed
  /\ run which engine sql t =
     (Py.Return (RStr "ERROR: only SELECT statements are allowed."), t).
Proof.
  intros H.
  assert (N : normalize sql = []) by (apply rstrip_all; exact H).
  assert (A : admission which sql = Rejected OnlySelectAllowed).
  { rewrite admission_unfold, N. reflexivity. }
  split; [exact N|]. split; [exact A|]. apply (run_rejected _ _ _ _ _ A).
Qed.

Lemma blank_text_rejected_witness :
  admission guardrailed_agent "" = Rejected OnlySelectAllowed
  /\ admission guardrailed_agent "   " = Rejected OnlySelectAllowed
  /\ admission complex_queries "  ;;; " = Rejected OnlySelectAllowed.
Proof.
  pose (e := {| engine_connect := Py.Raise (Py.Exception "no database") |}).
  split; [|split].
  - refine (proj1 (proj2 (blank_text_rejected guardrailed_agent e "" [] _))).
    vm_compute. constructor.
  - refine (proj1 (proj2 (blank_text_rejected guardrailed_agent e "   " [] _))).
    vm_compute. constructor.
  - refine (proj1 (proj2 (blank_text_rejected complex_queries e "  ;;; " [] _))).
    vm_compute. repeat constructor.
Defined.

(** X2: statement chaining is never accepted.  A text with a semicolon
    that has anything behind it other than white space and semicolons is
    rejected, as a write operation or for multiple statements, and no call
    is made on the engine. *)
Theorem chained_statement_rejected
    (which : script) (engine : Engine) (a b : str) (c : ascii)
    (t : list Py.event) :
  In c b -> Char.isspace c = false -> Str.is_semicolon c = false ->
  exists why,
    (why = WriteOperationForbidden \/ why = MultipleStatementsForbidden)
    /\ admission which (a ++ ";"%char :: b) = Rejected why
    /\ run which engine (a ++ ";"%char :: b) t
       = (Py.Return (RStr (message why)), t).
Proof.
  intros Hin Hs Hc.
  pose proof (normalize_keeps_semicolon a b c Hin Hs Hc) as K.
  apply semicolon_search in K.
  assert (A : exists why,
    (why = WriteOperationForbidden \/ why = MultipleStatementsForbidden)
    /\ admission which (a ++ ";"%char :: b) = Rejected why).
  { rewrite admission_unfold, K.
    destruct (search write_pattern _); eauto. }
  destruct A as (why & Hw & A). exists why.
  split; [exact Hw|]. split; [exact A|]. apply (run_rejected _ _ _ _ _ A).
Qed.

Lemma chained_statement_rejected_witness :
  exists why,
    (why = WriteOperationForbidden \/ why = MultipleStatementsForbidden)
    /\ admission guardrailed_agent "SELECT * FROM customers; SELECT * FROM orders"
       = Rejected why.
Proof.
  destruct (chained_statement_rejected guardrailed_agent
              {| engine_connect := Py.Raise (Py.Exception "no database") |}
              "SELECT * FROM customers" " SELECT * FROM orders" "S" [])
    as (why & Hw & A & _).
  - simpl. tauto.
  - reflexivity.
  - reflexivity.
  - exists why. split; [exact Hw|exact A].
Defined.

(** X3: the admission part never rewrites the body of a query.  The
    accepted text is a run of the text that was given, with white space
    removed in front of it and white space and semicolons behind it, and
    with " LIMIT 200" added behind it or nothing. *)
Theorem accepted_text_from_input (which : script) (sql f : str) :
  admission which sql = Accepted f ->
  exists pre body post,
    sql = pre ++ body ++ post
    /\ Spec.spaces pre
    /\ Forall (fun c => Char.isspace c = true \/ Str.is_semicolon c = true) post
    /\ (f = body \/ f = body ++ " LIMIT 200").
Proof.
  rewrite admission_same. intros H.
  apply accepted_inv in H as (_ & _ & _ & ->).
  destruct (normalize_split sql) as (pre & post & E & Hpre & Hpost).
  exists pre, (normalize sql), post.
  split; [exact E|]. split; [exact Hpre|]. split; [exact Hpost|].
  destruct (negb _ && negb _); auto.
Qed.

Lemma accepted_text_from_input_witness :
  exists pre body post,
    ("  SELECT id FROM customers ; " : str) = pre ++ body ++ post
    /\ Spec.spaces pre
    /\ Forall (fun c => Char.isspace c = true \/ Str.is_semicolon c = true) post
    /\ (("SELECT id FROM customers  LIMIT 200" : str) = body
        \/ ("SELECT id FROM customers  LIMIT 200" : str) = body ++ " LIMIT 200").
Proof.
  apply (accepted_text_from_input guardrailed_agent).
  vm_compute. reflexivity.
Defined.

(** X4: white space around the text changes nothing: the verdict, the
    value returned and the calls on the engine are those of the text
    without it. *)
Theorem surrounding_space_ignored
    (which : script) (engine : Engine) (ws1 sql ws2 : str) (t : list Py.event) :
  Spec.spaces ws1 -> Spec.spaces ws2 ->
  admission which (ws1 ++ sql ++ ws2) = admission which sql
  /\ run which engine (ws1 ++ sql ++ ws2) t = run which engine sql t.
Proof.
  intros H1 H2.
  assert (N : normalize (ws1 ++ sql ++ ws2) = normalize sql).
  { unfold normalize. rewrite (strip_pad _ _ _ H1 H2). reflexivity. }
  assert (A : admission which (ws1 ++ sql ++ ws2) = admission which sql).
  { rewrite !admission_unfold, N. reflexivity. }
  split; [exact A|].
  rewrite run_same, !run_admission, <- !(admission_same which), A. reflexivity.
Qed.

Lemma surrounding_space_ignored_witness :
  admission guardrailed_agent ("  " ++ "SELECT id FROM customers" ++ " ")
  = admission guardrailed_agent "SELECT id FROM customers".
Proof.
  refine (proj1 (surrounding_space_ignored guardrailed_agent
                   {| engine_connect := Py.Raise (Py.Exception "no database") |}
                   "  " "SELECT id FROM customers" " " [] _ _));
    repeat constructor.
Defined.

(** ** What an accepted text is *)

Module AcceptedFacts.
Import guardrailed_agent_03.SafeSQLTool.

(** The checks of lines 96-103 hold of the final text too, not only of
    the text of line 94. *)
Lemma accepted_checks (sql f : str) :
  admission sql = Accepted f ->
  search write_pattern f = false
  /\ Str.contains_semicolon f = false
  /\ match_ select_pattern f = true
  /\ (search limit_pattern f || search aggregate_pattern f = true)
  /\ exists c l, f = c :: l /\ Char.isspace c = false.
Proof.
  intros H. apply accepted_inv in H as (Hw & Hs & Hsel & Hf).
  pose proof (select_nonempty _ Hsel) as Hne.
  destruct (normalize sql) as [|c l] eqn:E; [congruence|].
  pose proof (normalize_head _ _ _ E) as Hc.
  destruct (negb (search limit_pattern (c :: l))
            && negb (search aggregate_pattern (c :: l))) eqn:B; subst f.
  - pose proof (again_limited (c :: l) c l eq_refl Hc Hw Hs Hsel) as A.
    apply accepted_inv in A as (Hw' & Hs' & Hsel' & _).
    destruct (normalize_limited (c :: l) c l eq_refl Hc Hs) as [N _].
    rewrite N in Hw', Hs', Hsel'.
    split; [exact Hw'|]. split; [exact Hs'|]. split; [exact Hsel'|]. split.
    + rewrite limit_found_after_append. reflexivity.
    + exists c, (l ++ " LIMIT 200"). auto.
  - split; [exact Hw|]. split; [exact Hs|]. split; [exact Hsel|]. split.
    + destruct (search limit_pattern (c :: l)); [reflexivity|].
      destruct (search aggregate_pattern (c :: l)); [reflexivity|discriminate].
    + exists c, l. auto.
Qed.

(** A text accepted once is accepted again, as its trimmed form. *)
Lemma again_accepted (sql f : str) :
  admission sql = Accepted f -> admission f = Accepted (Str.strip f).
Proof.
  intros H. apply accepted_inv in H as (Hw & Hs & Hsel & Hf).
  pose proof (select_nonempty _ Hsel) as Hne.
  destruct (normalize sql) as [|c l] eqn:E; [congruence|].
  pose proof (normalize_head _ _ _ E) as Hc.
  destruct (negb (search limit_pattern (c :: l))
            && negb (search aggregate_pattern (c :: l))) eqn:B; subst f.
  - destruct (normalize_limited (c :: l) c l eq_refl Hc Hs) as [_ ->].
    apply (again_limited _ c l); auto.
  - apply (again_kept _ c l); auto.
Qed.

End AcceptedFacts.

(** X5: what is accepted is a single read-only statement: the final text
    holds no write keyword as a whole word and no semicolon, it begins
    with the word SELECT with nothing before it, and it holds a LIMIT
    clause or an aggregate construct. *)
Theorem accepted_text_is_safe (which : script) (sql f : str) :
  admission which sql = Accepted f ->
  ~ Spec.contains_write_keyword f
  /\ ~ Spec.contains_terminator f
  /\ (exists u b, f = u ++ b /\ Str.ieq u "select" /\ Spec.word_at_start b = false)
  /\ (Spec.contains_limit f \/ Spec.contains_aggregate f).
Proof.
  rewrite admission_same. intros H.
  apply AcceptedFacts.accepted_checks in H
    as (Hw & Hs & Hsel & Hb & c & l & -> & Hc).
  split; [|split; [|split]].
  - intros X. apply write_search in X. congruence.
  - intros X. apply semicolon_search in X. congruence.
  - apply select_match in Hsel as (ws & u & b & E & Hws & Hu & Hb').
    destruct ws as [|d ws].
    + exists u, b. auto.
    + simpl in E. injection E as <- _. inversion Hws; subst. congruence.
  - apply orb_true_iff in Hb as [X|X].
    + left. apply limit_search. exact X.
    + right. apply aggregate_search. exact X.
Qed.

Lemma accepted_text_is_safe_witness :
  ~ Spec.contains_write_keyword "SELECT updated_at FROM orders LIMIT 200"
  /\ ~ Spec.contains_terminator "SELECT updated_at FROM orders LIMIT 200".
Proof.
  assert (H : admission guardrailed_agent " SELECT updated_at FROM orders;"
              = Accepted "SELECT updated_at FROM orders LIMIT 200")
    by (vm_compute; reflexivity).
  pose proof (accepted_text_is_safe guardrailed_agent _ _ H) as (A & B & _).
  exact (conj A B).
Defined.

(** ** The execution part, call by call *)


(** X7: no partial result.  On an accepted text [_run] returns the
    payload exactly when connecting, executing, fetching, reading the keys
    and releasing the connection all succeed, and the payload then is the
    keys and the rows of the driver, in the driver's order. *)
Theorem payload_iff_all_succeed
    (which : script) (engine : Engine) (sql f : str) (t t' : list Py.event)
    (cols : list str) (rows : list (list value)) :
  admission which sql = Accepted f ->
  (run which engine sql t = (Py.Return (RDict cols rows), t') <->
   exists conn result,
     engine_connect engine = Py.Return conn
     /\ conn_exec_driver_sql conn f = Py.Return result
     /\ result_fetchall result = Py.Return rows
     /\ result_keys result = Py.Return cols
     /\ conn_exit conn = Py.Return tt
     /\ t' = t ++ [Py.Connect; Py.Execute f; Py.Fetchall; Py.Keys]
               ++ match cols with [] => [] | _ :: _ => [Py.Keys] end
               ++ [Py.Release]).
Proof.
  rewrite run_same, admission_same, run_admission. intros ->.
  unfold Py.try_except, execute_body, Py.with_, Py.bind, connect,
    exec_driver_sql, fetchall, keys, release, Py.call, Py.ret, Py.lift.
  split.
  - destruct (engine_connect engine) as [conn|e].
    + destruct (conn_exec_driver_sql conn f) as [result|e] eqn:E1;
        [destruct (result_fetchall result) as [rs|e] eqn:E2;
           [destruct (result_keys result) as [[|k ks]|e] eqn:E3|]|];
        simpl; try rewrite E3;
        destruct (conn_exit conn) as [[]|e'] eqn:E5; simpl;
        repeat match goal with
        | |- context [Py.isinstance_Exception ?x] =>
            destruct (Py.isinstance_Exception x)
        | |- context [Py.str_of ?x] => destruct (Py.str_of x)
        end; try discriminate;
        intros H; injection H as <- <- <-;
        exists conn, result; rewrite map_id, <- !app_assoc; simpl; auto 7.
    + destruct (Py.isinstance_Exception e); [destruct (Py.str_of e)|]; discriminate.
  - intros (conn & result & -> & E1 & E2 & E3 & E5 & ->). rewrite E1, E2, E3.
    destruct cols as [|k ks]; simpl; try rewrite E3; rewrite E5;
      rewrite map_id, <- !app_assoc; reflexivity.
Qed.

Lemma payload_iff_all_succeed_witness :
  run guardrailed_agent
    {| engine_connect := Py.Return
         {| conn_exec_driver_sql := fun _ =>
              Py.Return {| result_fetchall := Py.Return [[VInt 1; VStr "Ada"]];
                           result_keys := Py.Return ["id" : str; "name" : str] |};
            conn_exit := Py.Return tt |} |}
    "SELECT id, name FROM customers" []
  = (Py.Return (RDict ["id" : str; "name" : str] [[VInt 1; VStr "Ada"]]),
     [Py.Connect; Py.Execute "SELECT id, name FROM customers LIMIT 200";
      Py.Fetchall; Py.Keys; Py.Keys; Py.Release]).
Proof.
  refine (proj2 (payload_iff_all_succeed guardrailed_agent _
                   "SELECT id, name FROM customers"
                   "SELECT id, name FROM customers LIMIT 200" [] _ _ _ _) _).
  - vm_compute. reflexivity.
  - eexists. eexists. repeat split.
Defined.

(** X8: when a call on the driver raises an instance of [Exception]
    whose text can be formed, and the release of the connection succeeds,
    that first failure decides the outcome: the calls after it are not
    made, the connection, if there is one, is released, and [_run] returns
    "ERROR: " followed by the text of the exception.  When the release
    itself raises such an exception, it is the text of that one which is
    returned, whatever the calls before it did. *)
Theorem driver_failure_reported
    (which : script) (engine : Engine) (sql f : str) (t : list Py.event)
    (e : Py.exn) (m : str) :
  admission which sql = Accepted f ->
  Py.isinstance_Exception e = true ->
  Py.str_of e = Py.Return m ->
  (engine_connect engine = Py.Raise e ->
   run which engine sql t
   = (Py.Return (RStr ("ERROR: " ++ m)), t ++ [Py.Connect]))
  /\ (forall conn,
      engine_connect engine = Py.Return conn ->
      conn_exit conn = Py.Return tt ->
      conn_exec_driver_sql conn f = Py.Raise e ->
      run which engine sql t
      = (Py.Return (RStr ("ERROR: " ++ m)),
         t ++ [Py.Connect; Py.Execute f; Py.Release]))
  /\ (forall conn result,
      engine_connect engine = Py.Return conn ->
      conn_exit conn = Py.Return tt ->
      conn_exec_driver_sql conn f = Py.Return result ->
      result_fetchall result = Py.Raise e ->
      run which engine sql t
      = (Py.Return (RStr ("ERROR: " ++ m)),
         t ++ [Py.Connect; Py.Execute f; Py.Fetchall; Py.Release]))
  /\ (forall conn result rows,
      engine_connect engine = Py.Return conn ->
      conn_exit conn = Py.Return tt ->
      conn_exec_driver_sql conn f = Py.Return result ->
      result_fetchall result = Py.Return rows ->
      result_keys result = Py.Raise e ->
      run which engine sql t
      = (Py.Return (RStr ("ERROR: " ++ m)),
         t ++ [Py.Connect; Py.Execute f; Py.Fetchall; Py.Keys; Py.Release]))
  /\ (forall conn,
      engine_connect engine = Py.Return conn ->
      conn_exit conn = Py.Raise e ->
      fst (run which engine sql t) = Py.Return (RStr ("ERROR: " ++ m))).
Proof.
  rewrite run_same, admission_same, run_admission. intros -> Hi Hs.
  split; [|split; [|split; [|split]]].
  1-4: unfold Py.try_except, execute_body, Py.with_, Py.bind, connect,
    exec_driver_sql, fetchall, keys, release, Py.call, Py.ret, Py.lift.
  - intros ->. rewrite Hi, Hs. reflexivity.
  - intros conn -> -> ->. rewrite Hi, Hs, <- !app_assoc. reflexivity.
  - intros conn result -> -> -> ->. rewrite Hi, Hs, <- !app_assoc. reflexivity.
  - intros conn result rows -> -> -> -> ->. rewrite Hi, Hs, <- !app_assoc. reflexivity.
  - intros conn E1 E5. rewrite try_value.
    rewrite (escapes_raises engine f e t (Spec.release_raises _ _ _ conn E1 E5)).
    rewrite Hi, Hs. reflexivity.
Qed.

Lemma driver_failure_reported_witness :
  run guardrailed_agent
    {| engine_connect := Py.Return
         {| conn_exec_driver_sql := fun _ =>
              Py.Raise (Py.Exception "no such column: nickname");
            conn_exit := Py.Return tt |} |}
    "SELECT nickname FROM customers" []
  = (Py.Return (RStr "ERROR: no such column: nickname"),
     [Py.Connect; Py.Execute "SELECT nickname FROM customers LIMIT 200";
      Py.Release]).
Proof.
  refine (proj1 (proj2 (driver_failure_reported guardrailed_agent _
                   "SELECT nickname FROM customers"
                   "SELECT nickname FROM customers LIMIT 200" []
                   (Py.Exception "no such column: nickname")
                   "no such column: nickname" _ _ _)) _ _ _ _).
  - vm_compute. reflexivity.
  - reflexivity.
  - reflexivity.
  - reflexivity.
  - reflexivity.
  - reflexivity.
Defined.

Lemma returns_iff {A B} (p : A * B) (a : A) :
  (exists b, p = (a, b)) <-> fst p = a.
Proof.
  destruct p as [a0 b0]. simpl. split.
  - intros (b & H). congruence.
  - intros ->. eauto.
Qed.

(** X9: the kind of value [_run] returns tells failure from success.  It
    returns a text exactly when the text given is rejected, the text being
    the rejection message, or when the execution is left with an instance
    of [Exception] whose text can be formed, the text being "ERROR: "
    followed by it; such a text always begins with "ERROR: "; and when
    every call of the execution succeeds [_run] returns the payload, not a
    text. *)
Theorem text_result_iff_failure
    (which : script) (engine : Engine) (sql : str) (t : list Py.event)
    (text : str) :
  ((exists t', run which engine sql t = (Py.Return (RStr text), t')) <->
   ((exists why, admission which sql = Rejected why /\ text = message why)
    \/ (exists f e m,
          admission which sql = Accepted f /\ Spec.escapes engine f e
          /\ Py.isinstance_Exception e = true /\ Py.str_of e = Py.Return m
          /\ text = "ERROR: " ++ m)))
  /\ ((exists t', run which engine sql t = (Py.Return (RStr text), t')) ->
      exists m, text = "ERROR: " ++ m)
  /\ (forall f cols rows,
      admission which sql = Accepted f -> Spec.succeeds engine f cols rows ->
      fst (run which engine sql t) = Py.Return (RDict cols rows)
      /\ forall text', fst (run which engine sql t) <> Py.Return (RStr text')).
Proof.
  assert (A : (exists t', run which engine sql t = (Py.Return (RStr text), t')) <->
    ((exists why, admission which sql = Rejected why /\ text = message why)
     \/ (exists f e m,
           admission which sql = Accepted f /\ Spec.escapes engine f e
           /\ Py.isinstance_Exception e = true /\ Py.str_of e = Py.Return m
           /\ text = "ERROR: " ++ m))).
  { rewrite returns_iff, run_same, admission_same, run_admission.
    destruct (guardrailed_agent_03.SafeSQLTool.admission sql) as [f|why].
    - rewrite try_value.
      destruct (succeeds_or_escapes engine f) as [(cols & rows & S)|(e0 & X0)].
      + rewrite (succeeds_returns _ _ _ _ t S). split; [discriminate|].
        intros [(why & H & _)|(f' & e & m & H & X & _)]; [discriminate|].
        injection H as <-. pose proof (escapes_raises _ _ _ t X) as R.
        rewrite (succeeds_returns _ _ _ _ t S) in R. discriminate.
      + rewrite (escapes_raises _ _ _ t X0). split.
        * destruct (Py.isinstance_Exception e0) eqn:Hi; [|discriminate].
          destruct (Py.str_of e0) as [m|e'] eqn:Hs; [|discriminate].
          intros H. injection H as <-. right. exists f, e0, m. auto.
        * intros [(why & H & _)|(f' & e & m & H & X & Hi & Hs & ->)];
            [discriminate|].
          injection H as <-. pose proof (escapes_raises _ _ _ t X) as R.
          rewrite (escapes_raises _ _ _ t X0) in R. injection R as ->.
          rewrite Hi, Hs. reflexivity.
    - simpl. split.
      + intros H. injection H as <-. left. eauto.
      + intros [(why' & H & ->)|(f & e & m & H & _)]; [|discriminate].
        injection H as <-. reflexivity. }
  split; [exact A|]. split.
  - intros H. apply A in H as [(why & _ & ->)|(f & e & m & _ & _ & _ & _ & ->)].
    + destruct why; eexists; reflexivity.
    + exists m. reflexivity.
  - intros f cols rows Hf S.
    assert (R : fst (run which engine sql t) = Py.Return (RDict cols rows)).
    { revert Hf. rewrite run_same, admission_same, run_admission. intros ->.
      rewrite try_value, (succeeds_returns _ _ _ _ t S). reflexivity. }
    split; [exact R|]. intros text'. rewrite R. discriminate.
Qed.

Lemma text_result_iff_failure_witness :
  exists m, ("ERROR: only SELECT statements are allowed." : str) = "ERROR: " ++ m.
Proof.
  apply (proj1 (proj2 (text_result_iff_failure guardrailed_agent
           {| engine_connect := Py.Raise (Py.Exception "no database") |}
           "SHOW TABLES" [] _))).
  exists []. vm_compute. reflexivity.
Defined.

(** X10: whatever the text given, a statement the engine is asked to
    execute is the accepted final text of that text: it holds no write
    keyword as a whole word and no semicolon, and it begins with the word
    SELECT. *)
Theorem executed_statement_is_safe
    (which : script) (engine : Engine) (sql : str) (t : list Py.event)
    (st : str) :
  In (Py.Execute st) (snd (run which engine sql t)) ->
  In (Py.Execute st) t
  \/ (admission which sql = Accepted st
      /\ ~ Spec.contains_write_keyword st
      /\ ~ Spec.contains_terminator st
      /\ Spec.begins_with_select st).
Proof.
  rewrite run_same, admission_same, run_admission.
  destruct (guardrailed_agent_03.SafeSQLTool.admission sql) as [f|why] eqn:A;
    [|simpl; auto].
  rewrite try_log.
  destruct (execute_body engine f t) as [o1 t1] eqn:E.
  destruct (execute_body_log _ _ _ _ _ E) as (evs & -> & Hev).
  simpl. intros H. apply in_app_or in H as [H|[H|H]];
    [auto|discriminate|].
  apply Hev in H. subst st. right.
  apply AcceptedFacts.accepted_checks in A as (Hw & Hs & Hsel & _).
  split; [reflexivity|]. split; [|split].
  - intros X. apply write_search in X. congruence.
  - intros X. apply semicolon_search in X. congruence.
  - apply select_match. exact Hsel.
Qed.

Lemma executed_statement_is_safe_witness :
  In (Py.Execute "SELECT 1 LIMIT 200") []
  \/ (admission guardrailed_agent "SELECT 1;;" = Accepted "SELECT 1 LIMIT 200"
      /\ ~ Spec.contains_write_keyword "SELECT 1 LIMIT 200"
      /\ ~ Spec.contains_terminator "SELECT 1 LIMIT 200"
      /\ Spec.begins_with_select "SELECT 1 LIMIT 200").
Proof.
  apply (executed_statement_is_safe guardrailed_agent
           {| engine_connect := Py.Return
                {| conn_exec_driver_sql := fun _ =>
                     Py.Raise (Py.Exception "disk I/O error");
                   conn_exit := Py.Return tt |} |}).
  vm_compute. tauto.
Defined.

(** X11: quoting does not exempt a keyword.  A write keyword standing
    between two characters that are not identifier characters, quotes for
    one, brings the rejection as a write operation, so a query that only
    compares a column with the literal 'update' is rejected. *)
Theorem quoted_keyword_rejected
    (which : script) (sql a u b kw : str) (q1 q2 : ascii) :
  normalize sql = a ++ q1 :: u ++ q2 :: b ->
  Char.isword q1 = false -> Char.isword q2 = false ->
  In kw Spec.write_keywords -> Str.ieq u kw ->
  admission which sql = Rejected WriteOperationForbidden.
Proof.
  intros E H1 H2 Hin Hu.
  assert (S : search write_pattern (normalize sql) = true).
  { apply write_search. exists kw. split; [exact Hin|].
    exists (a ++ [q1]), u, (q2 :: b). rewrite E, <- app_assoc.
    split; [reflexivity|]. split; [exact Hu|].
    unfold Spec.word_at_end. rewrite last_of_snoc. auto. }
  rewrite admission_unfold, S. reflexivity.
Qed.

Lemma quoted_keyword_rejected_witness :
  admission guardrailed_agent "SELECT * FROM t WHERE name = 'update'"
  = Rejected WriteOperationForbidden.
Proof.
  apply (quoted_keyword_rejected guardrailed_agent
           "SELECT * FROM t WHERE name = 'update'"
           "SELECT * FROM t WHERE name = " "update" [] "UPDATE" "'" "'").
  - vm_compute. reflexivity.
  - reflexivity.
  - reflexivity.
  - simpl. tauto.
  - reflexivity.
Defined.

(** ** Re-admission comes to rest *)

Lemma lstrip_idem (f : ascii -> bool) (s : str) :
  Str.lstrip f (Str.lstrip f s) = Str.lstrip f s.
Proof.
  destruct (Str.lstrip f s) as [|c l] eqn:E; [reflexivity|].
  apply lstrip_id. eapply lstrip_head. exact E.
Qed.

Lemma rstrip_idem (f : ascii -> bool) (s : str) :
  Str.rstrip f (Str.rstrip f s) = Str.rstrip f s.
Proof. unfold Str.rstrip. rewrite rev_involutive, lstrip_idem. reflexivity. Qed.

Lemma strip_idem (s : str) : Str.strip (Str.strip s) = Str.strip s.
Proof.
  unfold Str.strip.
  assert (L : Str.lstrip Char.isspace (Str.rstrip Char.isspace (Str.lstrip Char.isspace s))
              = Str.rstrip Char.isspace (Str.lstrip Char.isspace s)).
  { destruct (Str.rstrip Char.isspace (Str.lstrip Char.isspace s)) as [|c y] eqn:E;
      [reflexivity|].
    destruct (rstrip_split Char.isspace (Str.lstrip Char.isspace s)) as (tail & E2 & _).
    rewrite E in E2. simpl in E2. apply lstrip_id. eapply lstrip_head. exact E2. }
  rewrite L. apply rstrip_idem.
Qed.

(** X12: re-admission comes to rest after one round: a final text, given
    back, is accepted as its trimmed form, and that text, given back, is
    accepted as itself. *)
Theorem second_round_is_stable (which : script) (sql f : str) :
  admission which sql = Accepted f ->
  admission which f = Accepted (Str.strip f)
  /\ admission which (Str.strip f) = Accepted (Str.strip f).
Proof.
  rewrite !admission_same. intros H.
  pose proof (AcceptedFacts.again_accepted _ _ H) as H1.
  pose proof (AcceptedFacts.again_accepted _ _ H1) as H2.
  rewrite strip_idem in H2. auto.
Qed.

Lemma second_round_is_stable_witness :
  admission guardrailed_agent "SELECT 1 LIMIT 5 "
  = Accepted (Str.strip "SELECT 1 LIMIT 5 ")
  /\ admission guardrailed_agent (Str.strip "SELECT 1 LIMIT 5 ")
     = Accepted (Str.strip "SELECT 1 LIMIT 5 ").
Proof.
  apply (second_round_is_stable guardrailed_agent "SELECT 1 LIMIT 5 ;").
  vm_compute. reflexivity.
Defined.

(** ** Letter case *)

Module CaseFacts.

Lemma tolower_decimal (c : ascii) : Char.isdecimal (Char.tolower c) = Char.isdecimal c.
Proof. CharFacts.each_char c; vm_compute; reflexivity. Qed.

Lemma tolower_semicolon (c : ascii) :
  Str.is_semicolon (Char.tolower c) = Str.is_semicolon c.
Proof. CharFacts.each_char c; vm_compute; reflexivity. Qed.

Lemma ieq_sym (u w : str) : Str.ieq u w -> Str.ieq w u.
Proof. unfold Str.ieq. congruence. Qed.

Lemma ieq_nil (u : str) : Str.ieq u [] -> u = [].
Proof. unfold Str.ieq. destruct u; [reflexivity|discriminate]. Qed.

Lemma class_ieq (P : ascii -> bool) (c d : ascii) :
  (forall x, P (Char.tolower x) = P x) ->
  Char.tolower c = Char.tolower d -> P c = P d.
Proof. intros HP E. rewrite <- (HP c), E, HP. reflexivity. Qed.

Lemma ieq_existsb (P : ascii -> bool) (u : str) :
  (forall x, P (Char.tolower x) = P x) ->
  forall w, Str.ieq u w -> existsb P u = existsb P w.
Proof.
  intros HP. unfold Str.ieq.
  induction u as [|c u IH]; intros [|d w] H; try discriminate; [reflexivity|].
  simpl in H. injection H as Hc Hu. simpl.
  rewrite (class_ieq P c d HP Hc), (IH _ Hu). reflexivity.
Qed.

Lemma ieq_cons_inv (c : ascii) (u w : str) :
  Str.ieq (c :: u) w ->
  exists d w', w = d :: w' /\ Char.tolower c = Char.tolower d /\ Str.ieq u w'.
Proof.
  unfold Str.ieq. destruct w as [|d w]; [discriminate|].
  simpl. intros H. injection H as Hc Hu. eauto.
Qed.

Lemma word_before_ieq (p q : option ascii) :
  option_map Char.tolower p = option_map Char.tolower q ->
  word_before p = word_before q.
Proof.
  destruct p as [c|], q as [d|]; simpl; try discriminate; [|reflexivity].
  intros H. injection H as H. apply (class_ieq _ _ _ CharFacts.tolower_word H).
Qed.

Lemma last_of_ieq (u : str) : forall w p q,
  option_map Char.tolower p = option_map Char.tolower q ->
  Str.ieq u w ->
  option_map Char.tolower (last_of p u) = option_map Char.tolower (last_of q w).
Proof.
  induction u as [|c u IH]; intros w p q Hp H.
  - apply ieq_sym, ieq_nil in H. subst w. exact Hp.
  - apply ieq_cons_inv in H as (d & w' & -> & Hc & Hu).
    simpl. apply IH; [simpl; congruence|exact Hu].
Qed.

Lemma next_word_ieq (u w : str) (nw : bool) :
  Str.ieq u w -> next_word u nw = next_word w nw.
Proof.
  destruct u as [|c u]; intros H.
  - apply ieq_sym, ieq_nil in H. subst w. reflexivity.
  - apply ieq_cons_inv in H as (d & w' & -> & Hc & _).
    simpl. apply (class_ieq _ _ _ CharFacts.tolower_word Hc).
Qed.

Lemma accepts_ieq (a : atom) (c d : ascii) :
  Char.tolower c = Char.tolower d -> accepts a c = accepts a d.
Proof.
  intros H. destruct a as [k| |]; simpl.
  - rewrite H. reflexivity.
  - apply (class_ieq _ _ _ CharFacts.tolower_space H).
  - apply (class_ieq _ _ _ tolower_decimal H).
Qed.

Lemma run_ieq (a : atom) (u : str) : forall w,
  Str.ieq u w ->
  Forall (fun c => accepts a c = true) u -> Forall (fun c => accepts a c = true) w.
Proof.
  induction u as [|c u IH]; intros w H Hu.
  - apply ieq_sym, ieq_nil in H. subst w. constructor.
  - apply ieq_cons_inv in H as (d & w' & -> & Hc & Hw).
    inversion Hu; subst. constructor.
    + rewrite <- (accepts_ieq a c d Hc). assumption.
    + apply IH; assumption.
Qed.

(** What a pattern matches, it matches in any letter case. *)
Lemma den_ieq (r : regex) : forall p q u w nw,
  option_map Char.tolower p = option_map Char.tolower q ->
  Str.ieq u w -> den r p u nw -> den r q w nw.
Proof.
  induction r as [|a|a|a| | |r1 IH1 r2 IH2|r1 IH1 r2 IH2];
    intros p q u w nw Hp H; simpl.
  - intros ->. apply ieq_sym, ieq_nil in H. exact H.
  - intros (c & -> & Hc). apply ieq_cons_inv in H as (d & w' & -> & Hd & Hw).
    apply ieq_sym, ieq_nil in Hw. subst w'.
    exists d. split; [reflexivity|]. rewrite <- (accepts_ieq a c d Hd). exact Hc.
  - apply run_ieq. exact H.
  - intros [Hne Hu]. split; [|eapply run_ieq; eauto].
    intros ->. apply ieq_nil in H. congruence.
  - intros [-> Hx]. apply ieq_sym, ieq_nil in H. subst w.
    rewrite <- (word_before_ieq p q Hp). auto.
  - intros [-> ->]. apply ieq_sym, ieq_nil in H. subst w.
    destruct q; [discriminate|]. auto.
  - intros (u1 & u2 & -> & D1 & D2).
    apply ieq_sym, ieq_app in H as (w1 & w2 & -> & H1 & H2).
    apply ieq_sym in H1. apply ieq_sym in H2.
    exists w1, w2. split; [reflexivity|]. split.
    + rewrite <- (next_word_ieq u2 w2 nw H2). eapply IH1; eauto.
    + eapply IH2; [|exact H2|exact D2]. apply last_of_ieq; assumption.
  - intros [D|D]; [left; eapply IH1|right; eapply IH2]; eauto.
Qed.

Lemma search_ieq_true (r : regex) (s s' : str) :
  Str.ieq s s' -> search r s = true -> search r s' = true.
Proof.
  intros H S. apply search_den in S as (a & u & b & -> & D).
  apply ieq_sym, ieq_app in H as (a' & r' & -> & Ha & Hr).
  apply ieq_app in Hr as (u' & b' & -> & Hu & Hb).
  apply ieq_sym in Ha. apply ieq_sym in Hu. apply ieq_sym in Hb.
  apply search_den. exists a', u', b'. split; [reflexivity|].
  apply (den_ieq r (last_of None a) _ u); [|exact Hu|].
  - apply last_of_ieq; [reflexivity|exact Ha].
  - change (word_after b') with (next_word b' false).
    rewrite <- (next_word_ieq b b' false Hb). exact D.
Qed.

Lemma search_ieq (r : regex) (s s' : str) :
  Str.ieq s s' -> search r s = search r s'.
Proof.
  intros H. apply eq_iff_eq_true. split; apply search_ieq_true; auto using ieq_sym.
Qed.

Lemma match_ieq_true (r : regex) (s s' : str) :
  Str.ieq s s' -> match_ r s = true -> match_ r s' = true.
Proof.
  intros H S. apply match_den in S as (u & b & -> & D).
  apply ieq_sym, ieq_app in H as (u' & b' & -> & Hu & Hb).
  apply ieq_sym in Hu. apply ieq_sym in Hb.
  apply match_den. exists u', b'. split; [reflexivity|].
  apply (den_ieq r None _ u); [reflexivity|exact Hu|].
  change (word_after b') with (next_word b' false).
  rewrite <- (next_word_ieq b b' false Hb). exact D.
Qed.

Lemma match_ieq (r : regex) (s s' : str) :
  Str.ieq s s' -> match_ r s = match_ r s'.
Proof.
  intros H. apply eq_iff_eq_true. split; apply match_ieq_true; auto using ieq_sym.
Qed.

End CaseFacts.

Module LetterFacts.

Lemma same_letter_tolower (c d : ascii) :
  Spec.same_letter c d -> Char.tolower c = Char.tolower d.
Proof.
  assert (U : forall x y, Char.between 65 90 x = true ->
                Char.code y = (Char.code x + 32)%N ->
                Char.tolower x = Char.tolower y).
  { intros x y Hx Hy.
    assert (E : y = ascii_of_N (Char.code x + 32)).
    { rewrite <- Hy. unfold Char.code. symmetry. apply ascii_N_embedding. }
    subst y. clear Hy. revert Hx.
    CharFacts.each_char x; vm_compute; congruence. }
  intros [->|[[Hc Hd]|[Hd Hc]]]; [reflexivity|auto|symmetry; auto].
Qed.

Lemma same_up_to_case_ieq (u w : str) : Spec.same_up_to_case u w -> Str.ieq u w.
Proof.
  unfold Str.ieq. induction 1 as [|c d u w Hcd _ IH]; [reflexivity|].
  simpl. rewrite (same_letter_tolower _ _ Hcd), IH. reflexivity.
Qed.

Lemma same_up_to_case_refl (u : str) : Spec.same_up_to_case u u.
Proof. induction u; constructor; [left; reflexivity|assumption]. Qed.

Lemma same_up_to_case_rev (u w : str) :
  Spec.same_up_to_case u w -> Spec.same_up_to_case (rev u) (rev w).
Proof.
  induction 1 as [|c d u w Hcd _ IH]; [constructor|].
  simpl. apply Forall2_app; [exact IH|]. constructor; [exact Hcd|constructor].
Qed.

Lemma same_up_to_case_lstrip (P : ascii -> bool) (u w : str) :
  (forall x, P (Char.tolower x) = P x) ->
  Spec.same_up_to_case u w ->
  Spec.same_up_to_case (Str.lstrip P u) (Str.lstrip P w).
Proof.
  intros HP. induction 1 as [|c d u w Hcd H IH]; [constructor|].
  simpl. rewrite (CaseFacts.class_ieq P c d HP (same_letter_tolower _ _ Hcd)).
  destruct (P d); [exact IH|]. constructor; assumption.
Qed.

Lemma same_up_to_case_rstrip (P : ascii -> bool) (u w : str) :
  (forall x, P (Char.tolower x) = P x) ->
  Spec.same_up_to_case u w ->
  Spec.same_up_to_case (Str.rstrip P u) (Str.rstrip P w).
Proof.
  intros HP H. unfold Str.rstrip.
  apply same_up_to_case_rev, same_up_to_case_lstrip; [exact HP|].
  apply same_up_to_case_rev. exact H.
Qed.

Lemma same_up_to_case_normalize (u w : str) :
  Spec.same_up_to_case u w -> Spec.same_up_to_case (normalize u) (normalize w).
Proof.
  intros H. unfold normalize, Str.strip.
  apply same_up_to_case_rstrip; [exact CaseFacts.tolower_semicolon|].
  apply same_up_to_case_rstrip; [exact CharFacts.tolower_space|].
  apply same_up_to_case_lstrip; [exact CharFacts.tolower_space|]. exact H.
Qed.

End LetterFacts.

(** X13: the case of the letters A to Z decides nothing.  Two texts that
    differ in the case of those letters only get the same verdict: the
    same rejection, or both are accepted, with final texts that again
    differ in the case of those letters only. *)
Theorem verdict_ignores_letter_case (which : script) (sql sql' : str) :
  Spec.same_up_to_case sql sql' ->
  match admission which sql, admission which sql' with
  | Accepted f, Accepted f' => Spec.same_up_to_case f f'
  | Rejected why, Rejected why' => why = why'
  | _, _ => False
  end.
Proof.
  intros H. apply LetterFacts.same_up_to_case_normalize in H.
  pose proof (LetterFacts.same_up_to_case_ieq _ _ H) as I.
  rewrite !admission_unfold.
  rewrite (CaseFacts.search_ieq write_pattern _ _ I).
  rewrite (CaseFacts.search_ieq limit_pattern _ _ I).
  rewrite (CaseFacts.search_ieq aggregate_pattern _ _ I).
  rewrite (CaseFacts.match_ieq select_pattern _ _ I).
  unfold Str.contains_semicolon.
  rewrite (CaseFacts.ieq_existsb _ _ CaseFacts.tolower_semicolon _ I).
  destruct (search write_pattern (normalize sql')); [reflexivity|].
  destruct (existsb Str.is_semicolon (normalize sql')); [reflexivity|].
  destruct (match_ select_pattern (normalize sql')); simpl negb; cbv iota;
    [|reflexivity].
  destruct (negb _ && negb _); [|exact H].
  apply Forall2_app; [exact H|apply LetterFacts.same_up_to_case_refl].
Qed.

Lemma verdict_ignores_letter_case_witness :
  match admission guardrailed_agent "select Id from Customers",
        admission guardrailed_agent "SELECT id FROM customers" with
  | Accepted f, Accepted f' => Spec.same_up_to_case f f'
  | Rejected why, Rejected why' => why = why'
  | _, _ => False
  end.
Proof.
  apply (verdict_ignores_letter_case guardrailed_agent).
  repeat (constructor;
          [first [left; reflexivity
                 |right; left; split; reflexivity
                 |right; right; split; reflexivity]|]).
  constructor.
Defined.
